(** * new_component.py: scaffolding of a Lean file and of its test file

    A shallow embedding of [scripts/new_component.py] and of the parts of
    [pathlib] and of the POSIX file system the script calls.

    - Strings are [string]; the [str] methods used by the script and by
      [pathlib] ([split], [join], [lstrip], [rfind], [replace], slicing)
      are structural functions on them.
    - A [Path] is what [pathlib] keeps after parsing: the root and the list
      of components.
    - The file system is a finite map from canonical absolute locations
      (lists of names) to nodes; path resolution walks it one component at a
      time, the way the kernel does, so that [..] and missing or non-directory
      ancestors behave as on POSIX.  There are no symbolic links, permissions
      or quotas: the only errors are ENOENT, ENOTDIR, EEXIST and EISDIR.  A
      real system can refuse a call for other reasons (permissions, the
      length of a name, space); what is proved of a call that returns, of a
      call whose [stat] succeeded and of what a call leaves untouched does not
      depend on that.
    - Strings are the byte strings of the arguments.  The interpreter runs in
      its UTF-8 mode (the default under the POSIX locale): bytes that are not
      UTF-8 are kept through [surrogateescape], standard output prints them
      back, and text files are written in strict UTF-8, so that writing a
      text that is not UTF-8 raises [UnicodeEncodeError].
    - The script runs in a state-and-exception monad over the file system and
      the lines printed on standard output. *)

From Stdlib Require Import Ascii String ZArith Lia.
From stdpp Require Import base decidable option list strings gmap fin_maps.

Local Open Scope Z_scope.
Local Open Scope nat_scope.

(** ** Python strings *)

Module Str.

Definition slash : ascii := "/"%char.
Definition dot : ascii := "."%char.
Definition newline : string := String (ascii_of_nat 10) "".

(** [len(s)] *)
Definition len (s : string) : nat := String.length s.

(** [c in s] for a one-character [c] *)
Fixpoint mem (c : ascii) (s : string) : bool :=
  match s with
  | EmptyString => false
  | String a s' => if decide (a = c) then true else mem c s'
  end.

(** [s.split(c)] for a one-character separator: never the empty list. *)
Fixpoint split (c : ascii) (s : string) : list string :=
  match s with
  | EmptyString => [EmptyString]
  | String a s' =>
      if decide (a = c) then EmptyString :: split c s'
      else match split c s' with
           | [] => [String a EmptyString]
           | w :: ws => String a w :: ws
           end
  end.

(** [c.join(l)] *)
Fixpoint join (c : string) (l : list string) : string :=
  match l with
  | [] => EmptyString
  | x :: l' =>
      match l' with
      | [] => x
      | _ :: _ => x +:+ c +:+ join c l'
      end
  end.

(** [s.lstrip(c)] for a one-character [c] *)
Fixpoint lstrip (c : ascii) (s : string) : string :=
  match s with
  | EmptyString => EmptyString
  | String a s' => if decide (a = c) then lstrip c s' else s
  end.

(** [s.replace(old, new)] for one-character [old] and [new] *)
Fixpoint replace (old new : ascii) (s : string) : string :=
  match s with
  | EmptyString => EmptyString
  | String a s' =>
      String (if decide (a = old) then new else a) (replace old new s')
  end.

(** [s.rfind(c)]: the highest index of [c]; Python's [-1] is [None]. *)
Fixpoint rfind (c : ascii) (s : string) : option nat :=
  match s with
  | EmptyString => None
  | String a s' =>
      match rfind c s' with
      | Some i => Some (S i)
      | None => if decide (a = c) then Some 0 else None
      end
  end.

(** [s[:n]] for [0 <= n] *)
Fixpoint take (n : nat) (s : string) : string :=
  match n, s with
  | S n', String a s' => String a (take n' s')
  | _, _ => EmptyString
  end.

(** [s[n:]] for [0 <= n] *)
Fixpoint drop (n : nat) (s : string) : string :=
  match n, s with
  | S n', String _ s' => drop n' s'
  | _, _ => s
  end.

(** A byte between two bounds. *)
Definition between (lo hi b : nat) : bool := (lo <=? b) && (b <=? hi).

(** A continuation byte of UTF-8. *)
Definition continuation (b : nat) : bool := between 128 191 b.

(** [s.encode('utf-8')] succeeds: the bytes are well-formed UTF-8 (no
    overlong form, no surrogate, nothing above U+10FFFF), that is, no byte
    of the argument was kept as a lone surrogate. *)
Fixpoint encodable (s : string) : bool :=
  match s with
  | EmptyString => true
  | String a0 s1 =>
      let b0 := nat_of_ascii a0 in
      if b0 <? 128 then encodable s1
      else
        match s1 with
        | EmptyString => false
        | String a1 s2 =>
            let b1 := nat_of_ascii a1 in
            if between 194 223 b0 then continuation b1 && encodable s2
            else
              match s2 with
              | EmptyString => false
              | String a2 s3 =>
                  let b2 := nat_of_ascii a2 in
                  if between 224 239 b0 then
                    (if b0 =? 224 then between 160 191 b1
                     else if b0 =? 237 then between 128 159 b1
                     else continuation b1)
                    && continuation b2 && encodable s3
                  else
                    match s3 with
                    | EmptyString => false
                    | String a3 s4 =>
                        let b3 := nat_of_ascii a3 in
                        between 240 244 b0
                        && (if b0 =? 240 then between 144 191 b1
                            else if b0 =? 244 then between 128 143 b1
                            else continuation b1)
                        && continuation b2 && continuation b3
                        && encodable s4
                    end
              end
        end
  end.

(** The text made of the given lines, each one ended by a newline. *)
Fixpoint unlines (l : list string) : string :=
  match l with
  | [] => EmptyString
  | x :: l' => x +:+ newline +:+ unlines l'
  end.

End Str.

(** ** pathlib: pure paths (POSIX flavour) *)

(** [root] is [""], ["/"] or ["//"]; [parts] are the components after the
    root, in order.  ([pathlib] stores the root as the first element of
    [_parts]; it is kept apart here.) *)
Record Path : Type := mkPath { root : string; parts : list string }.

#[global] Instance Path_eq_dec : EqDecision Path.
Proof. solve_decision. Defined.

(** [_PosixFlavour.splitroot]: exactly two leading slashes are kept as the
    root ["//"], any other number of them is the root ["/"]. *)
Definition splitroot (part : string) : string * string :=
  match part with
  | String a _ =>
      if decide (a = Str.slash) then
        let stripped_part := Str.lstrip Str.slash part in
        if decide (Str.len part - Str.len stripped_part = 2)
        then ("//", stripped_part)
        else ("/", stripped_part)
      else (EmptyString, part)
  | EmptyString => (EmptyString, part)
  end.

(** A component that [parse_parts] keeps: [if x and x != '.'] *)
Definition kept (x : string) : bool :=
  bool_decide (x ≠ EmptyString) && bool_decide (x ≠ ".").

(** [Path(s)]: [parse_parts] on the one argument [s]. *)
Definition Path_of_string (s : string) : Path :=
  let '(r, rel) := splitroot s in
  {| root := r; parts := filter (λ x, kept x = true) (Str.split Str.slash rel) |}.

(** [str(p)], which is also [p.as_posix()] on POSIX. *)
Definition str (p : Path) : string :=
  let s := root p +:+ Str.join "/" (parts p) in
  if decide (s = EmptyString) then "." else s.

Definition as_posix (p : Path) : string := str p.

(** [p.name]: the final component, [''] when there is none. *)
Definition name (p : Path) : string := default EmptyString (last (parts p)).

(** The suffix of a file name: [name[i:]] for [i = name.rfind('.')] when
    [0 < i < len(name) - 1], else [''] (CPython up to 3.13; a name that ends
    with a dot has no suffix). *)
Definition name_suffix (n : string) : string :=
  match Str.rfind Str.dot n with
  | Some i =>
      if bool_decide (0 < i) && bool_decide (i < Str.len n - 1)
      then Str.drop i n else EmptyString
  | None => EmptyString
  end.

(** [p.suffix] *)
Definition suffix (p : Path) : string := name_suffix (name p).

(** [p.parent]: the path without its final component; a path without
    components is its own parent. *)
Definition parent (p : Path) : Path :=
  {| root := root p; parts := removelast (parts p) |}.

(** ** Exceptions and the monad of the script *)

(** The error numbers the modelled file system can return.  Python raises
    them as subclasses of [OSError]: [FileNotFoundError] (ENOENT),
    [NotADirectoryError] (ENOTDIR), [FileExistsError] (EEXIST) and
    [IsADirectoryError] (EISDIR). *)
Inductive errno : Type := ENOENT | ENOTDIR | EEXIST | EISDIR.

Inductive exn : Type :=
  | OSError (e : errno)
  | ValueError
  | UnicodeEncodeError
  | SystemExit (code : Z).

#[global] Instance errno_eq_dec : EqDecision errno.
Proof. solve_decision. Defined.

#[global] Instance exn_eq_dec : EqDecision exn.
Proof. solve_decision. Defined.

(** A node of the file system: a regular file with its text, or a
    directory. *)
Inductive node : Type :=
  | File (data : string)
  | Dir.

#[global] Instance node_eq_dec : EqDecision node.
Proof. solve_decision. Defined.

(** Locations are canonical absolute paths: the names from the root down,
    without [.] or [..]; [[]] is the root directory. *)
Abbreviation location := (list string).
Abbreviation filesystem := (gmap (list string) node).

(** What the process can change: the file system and standard output (the
    lines printed so far, oldest first). *)
Record world : Type := mkWorld { files : filesystem; stdout : list string }.

(** A computation either returns or raises; the world it leaves is kept in
    both cases. *)
Definition M (A : Type) : Type := world → (exn + A) * world.

Definition ret {A} (a : A) : M A := λ w, (inr a, w).
Definition raise {A} (e : exn) : M A := λ w, (inl e, w).
Definition bind {A B} (m : M A) (k : A → M B) : M B :=
  λ w, match m w with
       | (inl e, w') => (inl e, w')
       | (inr a, w') => k a w'
       end.

Notation "'do' x <- m ; k" := (bind m (λ x, k))
  (at level 10, x name, m at level 100, k at level 200).
Notation "m ;;; k" := (bind m (λ _, k))
  (at level 100, k at level 200, right associativity).

(** A pure computation that may raise. *)
Definition lift {A} (r : exn + A) : M A := λ w, (r, w).

(** [print(line)] *)
Definition print (line : string) : M unit :=
  λ w, (inr tt, {| files := files w; stdout := stdout w ++ [line] |}).

(** [sys.exit(code)] *)
Definition sys_exit {A} (code : Z) : M A := raise (SystemExit code).

(** The exit status of the interpreter: 0 on a normal return, the code of
    [SystemExit], 1 after any other uncaught exception. *)
Definition exit_status {A} (r : exn + A) : Z :=
  match r with
  | inr _ => 0%Z
  | inl (SystemExit code) => code
  | inl _ => 1%Z
  end.

(** ** The file system *)

Section FileSystem.

(** The working directory of the process; the script never changes it. *)
Variable cwd : location.

(** The root directory always exists. *)
Definition node_at (fs : filesystem) (k : location) : option node :=
  match k with
  | [] => Some Dir
  | _ :: _ => fs !! k
  end.

(** The location a component leads to from directory [d]. *)
Definition step_key (d : location) (c : string) : location :=
  if decide (c = "..") then removelast d else d ++ [c].

(** Entering a component that is not the last one of a path: it has to be
    an existing directory. *)
Definition enter (fs : filesystem) (d : location) (c : string)
  : errno + location :=
  let k := step_key d c in
  match node_at fs k with
  | Some Dir => inr k
  | Some (File _) => inl ENOTDIR
  | None => inl ENOENT
  end.

Fixpoint walk (fs : filesystem) (d : location) (cs : list string)
  : errno + location :=
  match cs with
  | [] => inr d
  | c :: cs' =>
      match enter fs d c with
      | inl e => inl e
      | inr k => walk fs k cs'
      end
  end.

(** Where resolution starts: the root for an absolute path, the working
    directory otherwise. *)
Definition start (p : Path) : location :=
  if decide (root p = EmptyString) then cwd else [].

(** The location a path names: all components but the last are entered,
    the last one is only looked at. *)
Definition locate (fs : filesystem) (p : Path) : errno + location :=
  match last (parts p) with
  | None => inr (start p)
  | Some c =>
      match walk fs (start p) (removelast (parts p)) with
      | inl e => inl e
      | inr d => inr (step_key d c)
      end
  end.

(** [os.stat(p)] *)
Definition os_stat (fs : filesystem) (p : Path) : errno + node :=
  match locate fs p with
  | inl e => inl e
  | inr k =>
      match node_at fs k with
      | Some n => inr n
      | None => inl ENOENT
      end
  end.

(** [os.mkdir(p)] *)
Definition os_mkdir (p : Path) (fs : filesystem) : errno + filesystem :=
  match last (parts p) with
  | None => inl EEXIST
  | Some _ =>
      match locate fs p with
      | inl e => inl e
      | inr k =>
          match node_at fs k with
          | Some _ => inl EEXIST
          | None => inr (<[k := Dir]> fs)
          end
      end
  end.

(** [open(p, 'w')]: the file is created, or truncated if it is there; the
    open file is known by its location. *)
Definition os_open (p : Path) (fs : filesystem)
  : errno + location * filesystem :=
  match last (parts p) with
  | None => inl EISDIR
  | Some _ =>
      match locate fs p with
      | inl e => inl e
      | inr k =>
          match node_at fs k with
          | Some Dir => inl EISDIR
          | _ => inr (k, <[k := File EmptyString]> fs)
          end
      end
  end.

(** The bytes written to the open file at [k], the file then closed. *)
Definition fd_write (k : location) (data : string) (fs : filesystem)
  : filesystem :=
  <[k := File data]> fs.

(** ** pathlib: concrete paths *)

(** [p.exists()]: [os.stat] succeeded; ENOENT and ENOTDIR are ignored.
    ([pathlib] raises any other error of [stat] again; the modelled [stat]
    has no other.) *)
Definition exists_ (fs : filesystem) (p : Path) : bool :=
  match os_stat fs p with
  | inr _ => true
  | inl _ => false
  end.

(** [p.is_dir()] *)
Definition is_dir (fs : filesystem) (p : Path) : bool :=
  match os_stat fs p with
  | inr Dir => true
  | _ => false
  end.

(** [p.mkdir(parents=False, exist_ok=True)]:
<<
    try: os.mkdir(self, mode)
    except FileNotFoundError: raise
    except OSError:
        if not exist_ok or not self.is_dir(): raise
>> *)
Definition mkdir_exist_ok (self : Path) : M unit :=
  λ w,
    match os_mkdir self (files w) with
    | inr fs' => (inr tt, {| files := fs'; stdout := stdout w |})
    | inl ENOENT => (inl (OSError ENOENT), w)
    | inl e =>
        if is_dir (files w) self then (inr tt, w) else (inl (OSError e), w)
    end.

(** [p.mkdir(parents=True, exist_ok=True)], by recursion on the components
    of [p] from the last one:
<<
    try: os.mkdir(self, mode)
    except FileNotFoundError:
        if not parents or self.parent == self: raise
        self.parent.mkdir(parents=True, exist_ok=True)
        self.mkdir(mode, parents=False, exist_ok=exist_ok)
    except OSError:
        if not exist_ok or not self.is_dir(): raise
>>
    [rparts] is [p]'s components in reverse, so that the parent is the
    tail.  Directories made before a later step raises stay. *)
Fixpoint mkdir_rev (r : string) (rparts : list string) : M unit :=
  let self := {| root := r; parts := rev rparts |} in
  λ w,
    match os_mkdir self (files w) with
    | inr fs' => (inr tt, {| files := fs'; stdout := stdout w |})
    | inl ENOENT =>
        match rparts with
        | [] => (inl (OSError ENOENT), w)
        | _ :: rparent => (mkdir_rev r rparent ;;; mkdir_exist_ok self) w
        end
    | inl e =>
        if is_dir (files w) self then (inr tt, w) else (inl (OSError e), w)
    end.

Definition mkdir_parents (p : Path) : M unit :=
  mkdir_rev (root p) (rev (parts p)).

(** [p.write_text(data)]:
<<
    with self.open(mode='w', ...) as f:
        return f.write(data)
>>
    The file is opened, so created or truncated, before the text is
    encoded; a text that cannot be encoded leaves it empty. *)
Definition write_text (p : Path) (data : string) : M unit :=
  λ w,
    match os_open p (files w) with
    | inl e => (inl (OSError e), w)
    | inr (k, fs') =>
        if Str.encodable data then
          (inr tt, {| files := fd_write k data fs'; stdout := stdout w |})
        else
          (inl UnicodeEncodeError, {| files := fs'; stdout := stdout w |})
    end.

(** [p.with_suffix("")]: [ValueError] when [p] has an empty name. *)
Definition with_suffix_empty (p : Path) : exn + Path :=
  let n := name p in
  if decide (n = EmptyString) then inl ValueError
  else
    let old_suffix := suffix p in
    let n' :=
      if decide (old_suffix = EmptyString) then n
      else Str.take (Str.len n - Str.len old_suffix) n in
    inr {| root := root p; parts := removelast (parts p) ++ [n'] |}.

(** ** The script *)

Definition lean_content : string :=
  "/--" +:+ Str.newline +:+
  "  TODO: add description." +:+ Str.newline +:+
  "-/" +:+ Str.newline +:+
  "import Mathlib" +:+ Str.newline +:+ Str.newline +:+
  "namespace Thesis" +:+ Str.newline +:+ Str.newline +:+
  "-- TODO: definitions and theorems." +:+ Str.newline +:+ Str.newline +:+
  "end Thesis" +:+ Str.newline.

Definition test_content (module : string) : string :=
  ("import " +:+ module +:+ Str.newline +:+ Str.newline) +:+
  ("-- TODO: add tests for " +:+ module +:+ "." +:+ Str.newline).

Definition usage : string :=
  "Usage: new_component.py path/to/File.lean [tests/Path.lean]".

Definition write_lean_file (path : Path) : M unit :=
  λ w,
    if exists_ (files w) path then
      print (str path +:+ " already exists") w
    else
      (mkdir_parents (parent path) ;;;
       write_text path lean_content ;;;
       print ("Created " +:+ str path)) w.

Definition write_test_file (path : Path) (module : string) : M unit :=
  λ w,
    if exists_ (files w) path then
      print (str path +:+ " already exists") w
    else
      (mkdir_parents (parent path) ;;;
       write_text path (test_content module) ;;;
       print ("Created " +:+ str path)) w.

(** [lean_path.with_suffix("").as_posix().replace("/", ".")] *)
Definition module_identifier (lean_path : Path) : exn + string :=
  match with_suffix_empty lean_path with
  | inl e => inl e
  | inr q => inr (Str.replace Str.slash Str.dot (as_posix q))
  end.

(** [main()], with [sys.argv] as its argument. *)
Definition main (argv : list string) : M unit :=
  if bool_decide (length argv < 2) then
    print usage ;;; sys_exit 1
  else
    let lean_path := Path_of_string (nth 1 argv EmptyString) in
    write_lean_file lean_path ;;;
    if bool_decide (2 < length argv) then
      do module <- lift (module_identifier lean_path) ;
      let test_path := Path_of_string (nth 2 argv EmptyString) in
      write_test_file test_path module
    else ret tt.

End FileSystem.

(** ** Vocabulary of the statements *)

(** Dirs stay dirs and nodes stay nodes (a file may change its text). *)
Definition extends (fs fs' : filesystem) : Prop :=
  ∀ k n, node_at fs k = Some n →
         ∃ n', node_at fs' k = Some n' ∧ (n = Dir → n' = Dir).

(** Nothing that was there has changed. *)
Definition grows (fs fs' : filesystem) : Prop :=
  ∀ k n, node_at fs k = Some n → node_at fs' k = Some n.

(** The only change is that locations that were free may now hold a
    directory. *)
Definition only_new_dirs (fs fs' : filesystem) : Prop :=
  ∀ k, node_at fs' k = node_at fs k ∨
       (node_at fs k = None ∧ node_at fs' k = Some Dir).

(** [join] ends with its last piece. *)
Fixpoint lead (l : list string) : string :=
  match l with
  | [] => ""
  | x :: l' => x +:+ "/" +:+ lead l'
  end.

Definition slash_free (x : string) : Prop := Str.mem Str.slash x = false.

(** A component as [Path(...)] keeps them. *)
Definition plain (x : string) : Prop := x ≠ "" ∧ x ≠ "." ∧ slash_free x.

(** The file name without its suffix, as [with_suffix("")] computes it. *)
Definition stem (n : string) : string :=
  if decide (name_suffix n = "") then n
  else Str.take (Str.len n - Str.len (name_suffix n)) n.

(** What [Path(...)] builds. *)
Definition wf_path (p : Path) : Prop :=
  (root p = "" ∨ root p = "/" ∨ root p = "//") ∧ Forall plain (parts p).

(** The derivation as the specification words it, on the text of a path:
    take the path, remove its file extension (the suffix of what follows the
    last separator), then replace every separator by a dot. *)
Definition remove_extension (s : string) : string :=
  let base := default "" (last (Str.split Str.slash s)) in
  Str.take (Str.len s - Str.len (name_suffix base)) s.

Definition ModuleIdentifier (primaryPath : string) : string :=
  Str.replace Str.slash Str.dot (remove_extension primaryPath).

(** [p.parents]: the parent, its parent, and so on up to the path without
    components. *)
Definition parents (p : Path) : list Path :=
  map (λ i, {| root := root p; parts := take i (parts p) |})
      (rev (seq 0 (length (parts p)))).

Definition no_dotdot (cs : list string) : Prop := Forall (λ c, c ≠ "..") cs.

Section Vocabulary.

Variable cwd : location.

(** What a directory creation leaves, whether it returns or raises. *)
Definition mkdir_post (self : Path) (w : world) (res : exn + unit) (w' : world)
  : Prop :=
  stdout w' = stdout w ∧
  only_new_dirs (files w) (files w') ∧
  match res with
  | inr _ => is_dir cwd (files w') self = true
  | inl e => ∃ en, e = OSError en
  end.

(** The two writers differ only in the text they write. *)
Definition create (path : Path) (content : string) : M unit :=
  λ w,
    if exists_ cwd (files w) path then
      print (str path +:+ " already exists") w
    else
      (mkdir_parents cwd (parent path) ;;;
       write_text cwd path content ;;;
       print ("Created " +:+ str path)) w.

(** What a call leaves when nothing exists at the path: either the file
    is there and its line was printed, or an exception went through and
    nothing was printed. *)
Definition create_post (p : Path) (content : string) (w : world)
    (res : exn + unit) (w' : world) : Prop :=
  match res with
  | inr _ =>
      os_stat cwd (files w') p = inr (File content) ∧
      stdout w' = stdout w ++ ["Created " +:+ str p] ∧
      extends (files w) (files w') ∧
      is_dir cwd (files w') (parent p) = true
  | inl e =>
      stdout w' = stdout w ∧
      extends (files w) (files w')
  end.

End Vocabulary.

(** *** Worlds used as examples *)

Definition empty_world : world := {| files := ∅; stdout := [] |}.

(** A world whose only node is the regular file [f]. *)
Definition blocked_world : world :=
  {| files := {[ ["f"] := File "x" ]}; stdout := [] |}.

(** A world with the regular file [Foo.lean], whose text is not the
    template, and the directory [src]. *)
Definition used_world : world :=
  {| files := {[ ["Foo.lean"] := File "old text"; ["src"] := Dir ]};
     stdout := ["earlier"] |}.

(** *** File systems as trees *)

(** Every node lies in a directory. *)
Definition tree_shaped (fs : filesystem) : Prop :=
  ∀ k c n, node_at fs (k ++ [c]) = Some n → node_at fs k = Some Dir.

(** A file system the process can run in: a tree in which the working
    directory is a directory. *)
Definition wf_world (cwd : location) (fs : filesystem) : Prop :=
  node_at fs cwd = Some Dir ∧ tree_shaped fs.

(** The line a writer prints for [p], from what [p.exists()] answers. *)
Definition status_line (cwd : location) (fs : filesystem) (p : Path) : string :=
  if exists_ cwd fs p then str p +:+ " already exists"
  else "Created " +:+ str p.

(** A file name whose first byte, 255, is not UTF-8. *)
Definition not_utf8_name : string := String (ascii_of_nat 255) ".lean".

(** A tree with the regular file [x.lean] in the working directory [home]. *)
Definition home_world : world :=
  {| files := {[ ["home"] := Dir; ["home"; "x.lean"] := File "old text" ]};
     stdout := [] |}.

(** ** Facts about the file system *)

Section FileSystemFacts.

Variable cwd : location.

Implicit Types (fs : filesystem) (k d : location) (p : Path) (w : world).

Lemma grows_refl fs : grows fs fs.
Proof. by intros k n H. Qed.

Lemma grows_trans fs1 fs2 fs3 : grows fs1 fs2 → grows fs2 fs3 → grows fs1 fs3.
Proof. intros H12 H23 k n H. by apply H23, H12. Qed.

Lemma grows_extends fs fs' : grows fs fs' → extends fs fs'.
Proof. intros H k n Hk. exists n. split; [by apply H | done]. Qed.

Lemma extends_refl fs : extends fs fs.
Proof. apply grows_extends, grows_refl. Qed.

Lemma extends_trans fs1 fs2 fs3 :
  extends fs1 fs2 → extends fs2 fs3 → extends fs1 fs3.
Proof.
  intros H12 H23 k n H.
  destruct (H12 k n H) as (n2 & H2 & Hd2).
  destruct (H23 k n2 H2) as (n3 & H3 & Hd3).
  exists n3. split; [done | auto].
Qed.

Lemma node_at_insert_eq fs k n :
  node_at fs k = None → node_at (<[k := n]> fs) k = Some n.
Proof.
  destruct k as [|c k]; [done |]. intros _. simpl. by rewrite lookup_insert_eq.
Qed.

Lemma node_at_insert_same fs k n :
  node_at fs k ≠ Some Dir → node_at (<[k := n]> fs) k = Some n.
Proof.
  destruct k as [|c k]; [done |]. intros _. simpl. by rewrite lookup_insert_eq.
Qed.

Lemma node_at_insert_ne fs k k' n :
  k ≠ k' → node_at (<[k := n]> fs) k' = node_at fs k'.
Proof.
  intros Hne. destruct k' as [|c k']; [done |]. simpl.
  by rewrite lookup_insert_ne.
Qed.

Lemma grows_insert fs k n : node_at fs k = None → grows fs (<[k := n]> fs).
Proof.
  intros Hk k' n' H'. rewrite node_at_insert_ne; [done |].
  intros ->. congruence.
Qed.

Lemma extends_insert_file fs k data :
  node_at fs k ≠ Some Dir → extends fs (<[k := File data]> fs).
Proof.
  intros Hk k' n' H'. destruct (decide (k = k')) as [<- | Hne].
  - exists (File data). split; [by apply node_at_insert_same |].
    intros ->. congruence.
  - exists n'. by rewrite node_at_insert_ne.
Qed.

(** *** Resolution *)

Lemma walk_app fs d cs cs' :
  walk fs d (cs ++ cs') =
  match walk fs d cs with
  | inl e => inl e
  | inr k => walk fs k cs'
  end.
Proof.
  revert d. induction cs as [|c cs IH]; intros d; simpl; [done |].
  destruct (enter fs d c); [done | apply IH].
Qed.

Lemma enter_inr fs d c k :
  enter fs d c = inr k ↔ k = step_key d c ∧ node_at fs k = Some Dir.
Proof.
  unfold enter. destruct (node_at fs (step_key d c)) as [[?|]|] eqn:E.
  - split; [done | intros [-> ?]; congruence].
  - split; [intros [= <-]; done | intros [-> ?]; done].
  - split; [done | intros [-> ?]; congruence].
Qed.

Lemma enter_extends fs fs' d c k :
  extends fs fs' → enter fs d c = inr k → enter fs' d c = inr k.
Proof.
  intros Hext [-> Hk]%enter_inr. apply enter_inr. split; [done |].
  destruct (Hext _ _ Hk) as (n' & Hn' & Hd). by rewrite Hn', Hd.
Qed.

Lemma walk_extends fs fs' d cs k :
  extends fs fs' → walk fs d cs = inr k → walk fs' d cs = inr k.
Proof.
  intros Hext. revert d. induction cs as [|c cs IH]; intros d; simpl; [done |].
  destruct (enter fs d c) as [e|k1] eqn:E; [done |].
  rewrite (enter_extends _ _ _ _ _ Hext E). apply IH.
Qed.

Lemma locate_extends fs fs' p k :
  extends fs fs' → locate cwd fs p = inr k → locate cwd fs' p = inr k.
Proof.
  intros Hext. unfold locate. destruct (last (parts p)); [| done].
  destruct (walk fs _ _) as [e|d] eqn:E; [done |].
  by rewrite (walk_extends _ _ _ _ _ Hext E).
Qed.

Lemma os_stat_inr fs p n :
  os_stat cwd fs p = inr n ↔
  ∃ k, locate cwd fs p = inr k ∧ node_at fs k = Some n.
Proof.
  unfold os_stat. destruct (locate cwd fs p) as [e|k].
  - split; [done | by intros (? & ? & ?)].
  - destruct (node_at fs k) as [n'|] eqn:E.
    + split; [intros [= <-]; eauto | intros (? & [= <-] & ?); congruence].
    + split; [done | intros (? & [= <-] & ?); congruence].
Qed.

Lemma os_stat_extends fs fs' p n :
  extends fs fs' → os_stat cwd fs p = inr n →
  ∃ n', os_stat cwd fs' p = inr n' ∧ (n = Dir → n' = Dir).
Proof.
  intros Hext (k & Hk & Hn)%os_stat_inr.
  destruct (Hext _ _ Hn) as (n' & Hn' & Hd).
  exists n'. split; [| done]. apply os_stat_inr. exists k.
  split; [by eapply locate_extends | done].
Qed.

Lemma os_stat_grows fs fs' p n :
  grows fs fs' → os_stat cwd fs p = inr n → os_stat cwd fs' p = inr n.
Proof.
  intros Hg (k & Hk & Hn)%os_stat_inr. apply os_stat_inr. exists k.
  split; [eapply locate_extends; eauto using grows_extends | by apply Hg].
Qed.

Lemma exists_extends fs fs' p :
  extends fs fs' → exists_ cwd fs p = true → exists_ cwd fs' p = true.
Proof.
  unfold exists_. intros Hext. destruct (os_stat cwd fs p) as [|n] eqn:E; [done |].
  intros _. destruct (os_stat_extends _ _ _ _ Hext E) as (n' & -> & _). done.
Qed.

Lemma is_dir_true fs p : is_dir cwd fs p = true ↔ os_stat cwd fs p = inr Dir.
Proof.
  unfold is_dir. destruct (os_stat cwd fs p) as [|[|]]; split; congruence.
Qed.

Lemma is_dir_extends fs fs' p :
  extends fs fs' → is_dir cwd fs p = true → is_dir cwd fs' p = true.
Proof.
  rewrite !is_dir_true. intros Hext E.
  destruct (os_stat_extends _ _ _ _ Hext E) as (n' & -> & Hd). by rewrite Hd.
Qed.

Lemma is_dir_exists fs p : is_dir cwd fs p = true → exists_ cwd fs p = true.
Proof. unfold is_dir, exists_. by destruct (os_stat cwd fs p) as [|[|]]. Qed.

(** *** Paths and their last component *)

Lemma parts_snoc_cases (l : list string) :
  l = [] ∨ ∃ init c, l = init ++ [c].
Proof.
  destruct l as [|x l] using rev_ind; [by left | right; eauto].
Qed.

Lemma locate_snoc fs r init c :
  locate cwd fs {| root := r; parts := init ++ [c] |} =
  match walk fs (start cwd {| root := r; parts := init |}) init with
  | inl e => inl e
  | inr d => inr (step_key d c)
  end.
Proof.
  unfold locate. simpl. rewrite last_snoc, removelast_last. done.
Qed.

Lemma locate_nil fs r :
  locate cwd fs {| root := r; parts := [] |} =
  inr (start cwd {| root := r; parts := [] |}).
Proof. done. Qed.

Lemma walk_snoc fs d init c :
  walk fs d (init ++ [c]) =
  match walk fs d init with
  | inl e => inl e
  | inr k => enter fs k c
  end.
Proof.
  rewrite walk_app. destruct (walk fs d init); [done |]. simpl.
  by destruct (enter fs l c).
Qed.

(** A directory can be walked into, and what can be walked into is a
    directory. *)
Lemma stat_dir_walk fs p :
  os_stat cwd fs p = inr Dir →
  ∃ k, walk fs (start cwd p) (parts p) = inr k ∧ locate cwd fs p = inr k.
Proof.
  destruct p as [r l]. intros (k & Hk & Hn)%os_stat_inr. exists k.
  split; [| done]. simpl.
  destruct (parts_snoc_cases l) as [-> | (init & c & ->)].
  - rewrite locate_nil in Hk. by injection Hk as <-.
  - rewrite locate_snoc in Hk. rewrite walk_snoc. unfold start in *. simpl in *.
    destruct (walk fs _ init) as [|d]; [done |]. injection Hk as <-.
    apply enter_inr. done.
Qed.

Lemma walk_stat_dir fs r init c k :
  walk fs (start cwd {| root := r; parts := init |}) (init ++ [c]) = inr k →
  os_stat cwd fs {| root := r; parts := init ++ [c] |} = inr Dir.
Proof.
  rewrite walk_snoc. intros H. apply os_stat_inr. exists k.
  rewrite locate_snoc. destruct (walk fs _ init) as [|d]; [done |].
  apply enter_inr in H as [-> H]. done.
Qed.

(** *** System calls *)

Lemma os_mkdir_inr fs p fs' :
  os_mkdir cwd p fs = inr fs' ↔
  ∃ k, parts p ≠ [] ∧ locate cwd fs p = inr k ∧ node_at fs k = None ∧
       fs' = <[k := Dir]> fs.
Proof.
  unfold os_mkdir. destruct (last (parts p)) as [c|] eqn:El.
  - assert (parts p ≠ []) by (intros E; by rewrite E in El).
    destruct (locate cwd fs p) as [e|k].
    { split; [done | by intros (? & ? & ? & ?)]. }
    destruct (node_at fs k) eqn:En.
    + split; [done | intros (? & ? & [= <-] & ? & ?); congruence].
    + split; [intros [= <-]; eauto | intros (? & ? & [= <-] & ? & ->); done].
  - apply last_None in El. split; [done | intros (? & ? & ?); done].
Qed.

Lemma os_open_inr fs p k fs' :
  os_open cwd p fs = inr (k, fs') ↔
  parts p ≠ [] ∧ locate cwd fs p = inr k ∧ node_at fs k ≠ Some Dir ∧
  fs' = <[k := File ""]> fs.
Proof.
  unfold os_open. destruct (last (parts p)) as [c|] eqn:El.
  - assert (parts p ≠ []) by (intros E; by rewrite E in El).
    destruct (locate cwd fs p) as [e|k0].
    { split; [done | by intros (? & ? & ?)]. }
    destruct (node_at fs k0) as [[?|]|] eqn:En.
    + split; [intros [= <- <-]; by rewrite En
             | intros (? & [= <-] & ? & ->); done].
    + split; [done | intros (? & [= <-] & ? & ?); congruence].
    + split; [intros [= <- <-]; by rewrite En
             | intros (? & [= <-] & ? & ->); done].
  - apply last_None in El. split; [done | intros (? & ?); done].
Qed.

(** What [write_text] does: the open is refused and nothing changes, or the
    file the path leads to is created or truncated and then holds the text,
    or nothing when the text cannot be encoded. *)
Lemma write_text_cases p data w :
  (∃ e, write_text cwd p data w = (inl (OSError e), w)) ∨
  ∃ k (text : string) (r : exn + unit),
    parts p ≠ [] ∧ locate cwd (files w) p = inr k ∧
    node_at (files w) k ≠ Some Dir ∧
    write_text cwd p data w =
      (r, {| files := <[k := File text]> (files w); stdout := stdout w |}) ∧
    (r = inr tt ∧ text = data ∨ r = inl UnicodeEncodeError ∧ text = "").
Proof.
  unfold write_text. destruct (os_open cwd p (files w)) as [e|[k fs']] eqn:E.
  { left. eauto. }
  apply os_open_inr in E as (Hne & Hk & Hn & ->). right.
  destruct (Str.encodable data).
  - exists k, data, (inr tt). unfold fd_write. rewrite insert_insert_eq.
    repeat split; auto.
  - exists k, "", (inl UnicodeEncodeError). repeat split; auto.
Qed.

Lemma os_mkdir_stat fs p fs' :
  os_mkdir cwd p fs = inr fs' → os_stat cwd fs' p = inr Dir.
Proof.
  intros (k & _ & Hk & Hn & ->)%os_mkdir_inr. apply os_stat_inr. exists k.
  split; [| by apply node_at_insert_eq].
  eapply locate_extends; [| done]. by apply grows_extends, grows_insert.
Qed.

Lemma stat_stored fs p k data :
  locate cwd fs p = inr k → node_at fs k ≠ Some Dir →
  os_stat cwd (<[k := File data]> fs) p = inr (File data).
Proof.
  intros Hk Hn. apply os_stat_inr. exists k.
  split; [| by apply node_at_insert_same].
  eapply locate_extends; [| done]. by apply extends_insert_file.
Qed.

Lemma os_mkdir_exists fs p n :
  os_stat cwd fs p = inr n → os_mkdir cwd p fs = inl EEXIST.
Proof.
  intros (k & Hk & Hn)%os_stat_inr. unfold os_mkdir.
  destruct (last (parts p)); [| done]. by rewrite Hk, Hn.
Qed.

(** *** Directory creation *)

Lemma only_new_dirs_refl fs : only_new_dirs fs fs.
Proof. intros k. by left. Qed.

Lemma only_new_dirs_trans fs1 fs2 fs3 :
  only_new_dirs fs1 fs2 → only_new_dirs fs2 fs3 → only_new_dirs fs1 fs3.
Proof.
  intros H12 H23 k. destruct (H12 k) as [E12 | [E1 E2]], (H23 k) as [E23 | [E2' E3]].
  - left. congruence.
  - right. split; congruence.
  - right. split; congruence.
  - congruence.
Qed.

Lemma only_new_dirs_grows fs fs' : only_new_dirs fs fs' → grows fs fs'.
Proof. intros H k n Hn. destruct (H k) as [E | [E _]]; congruence. Qed.

Lemma only_new_dirs_insert fs k :
  node_at fs k = None → only_new_dirs fs (<[k := Dir]> fs).
Proof.
  intros Hk k'. destruct (decide (k = k')) as [<- | Hne].
  - right. split; [done | by apply node_at_insert_eq].
  - left. by apply node_at_insert_ne.
Qed.

Lemma os_mkdir_only_new_dirs fs p fs' :
  os_mkdir cwd p fs = inr fs' → only_new_dirs fs fs'.
Proof.
  intros (k & _ & _ & Hn & ->)%os_mkdir_inr. by apply only_new_dirs_insert.
Qed.

Lemma mkdir_exist_ok_post self w :
  mkdir_post cwd self w (mkdir_exist_ok cwd self w).1 (mkdir_exist_ok cwd self w).2.
Proof.
  unfold mkdir_exist_ok, mkdir_post.
  destruct (os_mkdir cwd self (files w)) as [e|fs'] eqn:E.
  - destruct (is_dir cwd (files w) self) eqn:Ed.
    + destruct e; simpl; eauto using only_new_dirs_refl.
    + destruct e; simpl; eauto using only_new_dirs_refl.
  - simpl. split; [done |]. split; [by eapply os_mkdir_only_new_dirs |].
    apply is_dir_true. by eapply os_mkdir_stat.
Qed.

Lemma mkdir_rev_post r rparts w :
  mkdir_post cwd {| root := r; parts := rev rparts |} w
    (mkdir_rev cwd r rparts w).1 (mkdir_rev cwd r rparts w).2.
Proof.
  revert w. induction rparts as [|c rparent IH]; intros w.
  - cbn [mkdir_rev]. set (self := {| root := r; parts := rev [] |}).
    destruct (os_mkdir cwd self (files w)) as [e|fs'] eqn:E.
    + unfold mkdir_post.
      destruct (is_dir cwd (files w) self) eqn:Ed;
        destruct e; simpl; eauto using only_new_dirs_refl.
    + by apply os_mkdir_inr in E as (? & ? & ?).
  - cbn [mkdir_rev]. set (self := {| root := r; parts := rev (c :: rparent) |}).
    destruct (os_mkdir cwd self (files w)) as [e|fs'] eqn:E.
    + assert (e = ENOENT ∨ e ≠ ENOENT) as [-> | Hne] by (destruct e; auto).
      * unfold bind. specialize (IH w).
        destruct (mkdir_rev cwd r rparent w) as [[e1|[]] w1]; simpl in IH.
        { destruct IH as (Ho & Hd & He). unfold mkdir_post. simpl. done. }
        destruct IH as (Ho & Hd & _).
        pose proof (mkdir_exist_ok_post self w1) as (Ho2 & Hd2 & Hr2).
        unfold mkdir_post. split; [congruence |].
        split; [by eapply only_new_dirs_trans | done].
      * unfold mkdir_post.
        destruct (is_dir cwd (files w) self) eqn:Ed;
          destruct e; simpl; eauto using only_new_dirs_refl; done.
    + unfold mkdir_post. simpl. split; [done |].
      split; [by eapply os_mkdir_only_new_dirs |].
      apply is_dir_true. by eapply os_mkdir_stat.
Qed.

Lemma mkdir_parents_post p w :
  mkdir_post cwd p w (mkdir_parents cwd p w).1 (mkdir_parents cwd p w).2.
Proof.
  unfold mkdir_parents. pose proof (mkdir_rev_post (root p) (rev (parts p)) w) as H.
  rewrite rev_involutive in H. by destruct p.
Qed.

(** On an existing directory, nothing is done and nothing is raised. *)
Lemma mkdir_rev_is_dir r rparts w :
  is_dir cwd (files w) {| root := r; parts := rev rparts |} = true →
  mkdir_rev cwd r rparts w = (inr tt, w).
Proof.
  intros Hd. apply is_dir_true in Hd as Hs.
  destruct rparts as [|c rparent]; cbn [mkdir_rev];
    rewrite (os_mkdir_exists _ _ _ Hs), Hd; done.
Qed.

Lemma mkdir_parents_is_dir p w :
  is_dir cwd (files w) p = true → mkdir_parents cwd p w = (inr tt, w).
Proof.
  intros Hd. apply mkdir_rev_is_dir. rewrite rev_involutive. by destruct p.
Qed.

End FileSystemFacts.

(** ** Facts about the script *)

Section ScriptFacts.

Variable cwd : location.

Implicit Types (fs : filesystem) (p : Path) (w : world).

Lemma write_lean_file_create p : write_lean_file cwd p = create cwd p lean_content.
Proof. done. Qed.

Lemma write_test_file_create p module :
  write_test_file cwd p module = create cwd p (test_content module).
Proof. done. Qed.

Lemma create_skip p content w :
  exists_ cwd (files w) p = true →
  create cwd p content w =
  (inr tt, {| files := files w;
              stdout := stdout w ++ [str p +:+ " already exists"] |}).
Proof. intros H. unfold create. by rewrite H. Qed.

Lemma create_outcome p content w :
  exists_ cwd (files w) p = false →
  create_post cwd p content w (create cwd p content w).1 (create cwd p content w).2.
Proof.
  intros Hex. unfold create. rewrite Hex. unfold bind.
  pose proof (mkdir_parents_post cwd (parent p) w) as Hpost.
  destruct (mkdir_parents cwd (parent p) w) as [[e|[]] w1];
    destruct Hpost as (Ho & Hd & Hr); simpl in Ho, Hd, Hr.
  { simpl. split; [done |]. by apply grows_extends, only_new_dirs_grows. }
  assert (extends (files w) (files w1)) as Hext1
    by (by apply grows_extends, only_new_dirs_grows).
  destruct (write_text_cases cwd p content w1)
    as [[e ->] | (k & d & r & Hne & Hk & Hn & -> & Hrd)].
  { simpl. by rewrite Ho. }
  assert (extends (files w) (<[k := File d]> (files w1))) as Hext.
  { eapply extends_trans; [done |]. by apply extends_insert_file. }
  destruct Hrd as [[-> ->] | [-> ->]]; simpl.
  - split; [by apply stat_stored |]. split; [by rewrite Ho |].
    split; [done |]. eapply is_dir_extends; [| done]. by apply extends_insert_file.
  - by rewrite Ho.
Qed.

(** A writer never leaves through [sys.exit]. *)
Lemma create_not_exit p content w e :
  (create cwd p content w).1 = inl e → ∀ code, e ≠ SystemExit code.
Proof.
  unfold create. destruct (exists_ cwd (files w) p); [done |]. unfold bind.
  pose proof (mkdir_parents_post cwd (parent p) w) as Hpost.
  destruct (mkdir_parents cwd (parent p) w) as [[e1|[]] w1];
    destruct Hpost as (_ & _ & Hr); simpl in Hr.
  { destruct Hr as [en ->]. by intros [= <-]. }
  destruct (write_text_cases cwd p content w1)
    as [[en ->] | (k & text & r & _ & _ & _ & -> & [[-> _] | [-> _]])];
    simpl; [by intros [= <-] | done | by intros [= <-]].
Qed.

(** *** [main] *)

Lemma main_no_path argv w :
  length argv < 2 →
  main cwd argv w =
  (inl (SystemExit 1), {| files := files w; stdout := stdout w ++ [usage] |}).
Proof. intros H. unfold main. by rewrite bool_decide_eq_true_2. Qed.

Lemma main_primary_only prog a w :
  main cwd [prog; a] w =
  (write_lean_file cwd (Path_of_string a) ;;; ret tt) w.
Proof. done. Qed.

Lemma main_primary_and_test prog a b rest w :
  main cwd (prog :: a :: b :: rest) w =
  (write_lean_file cwd (Path_of_string a) ;;;
   do module <- lift (module_identifier (Path_of_string a)) ;
   write_test_file cwd (Path_of_string b) module) w.
Proof.
  unfold main. rewrite bool_decide_eq_false_2 by (simpl; lia).
  rewrite bool_decide_eq_true_2 by (simpl; lia). done.
Qed.

End ScriptFacts.

(** ** Facts about strings and pure paths *)

Section StringFacts.

Implicit Types (s t x : string) (c a : ascii) (l : list string).

#[local] Arguments String.append !_ _ / : simpl nomatch.

Lemma append_assoc s t x : (s +:+ t) +:+ x = s +:+ (t +:+ x).
Proof. induction s as [|a s IH]; simpl; [done | by rewrite IH]. Qed.

Lemma append_nil_r s : s +:+ "" = s.
Proof. induction s as [|a s IH]; simpl; [done | by rewrite IH]. Qed.

Lemma len_append s t : Str.len (s +:+ t) = Str.len s + Str.len t.
Proof. unfold Str.len. induction s as [|a s IH]; simpl; [done | by rewrite IH]. Qed.

Lemma append_eq_nil s t : s +:+ t = "" → s = "" ∧ t = "".
Proof. by destruct s. Qed.

Lemma mem_append c s t : Str.mem c (s +:+ t) = Str.mem c s || Str.mem c t.
Proof.
  induction s as [|a s IH]; simpl; [done |]. by destruct (decide (a = c)).
Qed.

Lemma take_append_len s t : Str.take (Str.len s) (s +:+ t) = s.
Proof. induction s as [|a s IH]; simpl; [by destruct t | by rewrite IH]. Qed.

Lemma take_append_plus s t n :
  Str.take (Str.len s + n) (s +:+ t) = s +:+ Str.take n t.
Proof. induction s as [|a s IH]; simpl; [done | by rewrite IH]. Qed.

Lemma drop_append_len s t : Str.drop (Str.len s) (s +:+ t) = t.
Proof. induction s as [|a s IH]; simpl; [by destruct t | done]. Qed.

Lemma take_drop_append n s : Str.take n s +:+ Str.drop n s = s.
Proof.
  revert s. induction n as [|n IH]; intros [|a s]; simpl; try done.
  by rewrite IH.
Qed.

Lemma len_drop n s : Str.len (Str.drop n s) = Str.len s - n.
Proof.
  unfold Str.len. revert s.
  induction n as [|n IH]; intros [|a s]; simpl; try done; lia.
Qed.

Lemma mem_take c n s : Str.mem c s = false → Str.mem c (Str.take n s) = false.
Proof.
  revert s. induction n as [|n IH]; intros [|a s]; simpl; try done.
  destruct (decide (a = c)); [done | apply IH].
Qed.

Lemma take_nonempty n s : 0 < n → s ≠ "" → Str.take n s ≠ "".
Proof. destruct n, s; simpl; try done; lia. Qed.

(** *** [replace] *)

Lemma replace_append old new s t :
  Str.replace old new (s +:+ t) = Str.replace old new s +:+ Str.replace old new t.
Proof. induction s as [|a s IH]; simpl; [done | by rewrite IH]. Qed.

Lemma replace_absent old new s :
  Str.mem old s = false → Str.replace old new s = s.
Proof.
  induction s as [|a s IH]; simpl; [done |].
  destruct (decide (a = old)); [done |]. intros H. by rewrite IH.
Qed.

Lemma mem_replace old new s :
  old ≠ new → Str.mem old (Str.replace old new s) = false.
Proof.
  intros Hne. induction s as [|a s IH]; simpl; [done |].
  destruct (decide (a = old)) as [-> | Hn].
  - by rewrite decide_False.
  - by rewrite decide_False.
Qed.

Lemma replace_join l :
  Forall (λ x, Str.mem Str.slash x = false) l →
  Str.replace Str.slash Str.dot (Str.join "/" l) = Str.join "." l.
Proof.
  induction 1 as [|x l Hx Hl IH]; [done |].
  destruct l as [|y l]; [by apply replace_absent |].
  change (Str.join "/" (x :: y :: l)) with (x +:+ "/" +:+ Str.join "/" (y :: l)).
  change (Str.join "." (x :: y :: l)) with (x +:+ "." +:+ Str.join "." (y :: l)).
  rewrite !replace_append, IH, replace_absent by done. done.
Qed.

(** *** [split] and [join] *)

Lemma split_absent c s : Str.mem c s = false → Str.split c s = [s].
Proof.
  induction s as [|a s IH]; simpl; [done |].
  destruct (decide (a = c)); [done |]. intros H. by rewrite IH.
Qed.

Lemma split_app_sep c x s :
  Str.mem c x = false →
  Str.split c (x +:+ String c s) = x :: Str.split c s.
Proof.
  induction x as [|a x IH]; simpl.
  - intros _. by rewrite decide_True.
  - destruct (decide (a = c)); [done |]. intros H. by rewrite IH.
Qed.

Lemma split_join l :
  l ≠ [] → Forall (λ x, Str.mem Str.slash x = false) l →
  Str.split Str.slash (Str.join "/" l) = l.
Proof.
  intros Hne Hl. induction Hl as [|x l Hx Hl IH]; [done |].
  destruct l as [|y l]; [by apply split_absent |].
  change (Str.join "/" (x :: y :: l))
    with (x +:+ String Str.slash (Str.join "/" (y :: l))).
  rewrite split_app_sep by done. by rewrite IH.
Qed.

Lemma split_parts_absent c s : Forall (λ x, Str.mem c x = false) (Str.split c s).
Proof.
  induction s as [|a s IH]; simpl; [by repeat constructor |].
  destruct (decide (a = c)); [by constructor |].
  destruct (Str.split c s) as [|w ws]; [by repeat constructor; simpl; rewrite decide_False |].
  apply Forall_cons in IH as [Hw Hws]. constructor; [| done].
  simpl. by rewrite decide_False.
Qed.

Lemma join_snoc l x : Str.join "/" (l ++ [x]) = lead l +:+ x.
Proof.
  induction l as [|y l IH]; [done |].
  change ((y :: l) ++ [x]) with (y :: (l ++ [x])).
  destruct (l ++ [x]) as [|z l'] eqn:E; [by destruct l |].
  change (Str.join "/" (y :: z :: l')) with (y +:+ "/" +:+ Str.join "/" (z :: l')).
  rewrite IH. simpl. by rewrite !append_assoc.
Qed.

Lemma join_snoc_nonempty l x : x ≠ "" → Str.join "/" (l ++ [x]) ≠ "".
Proof.
  intros Hx. rewrite join_snoc. intros [_ ?]%append_eq_nil. done.
Qed.

End StringFacts.

Section PathFacts.

Implicit Types (s t x n : string) (c a : ascii) (l init : list string).

#[local] Arguments String.append !_ _ / : simpl nomatch.

Lemma name_suffix_cases n :
  name_suffix n = "" ∨
  ∃ i, 0 < i ∧ i < Str.len n - 1 ∧ name_suffix n = Str.drop i n.
Proof.
  unfold name_suffix. destruct (Str.rfind Str.dot n) as [i|]; [| by left].
  destruct (bool_decide (0 < i)) eqn:E1; [| by left].
  destruct (bool_decide (i < Str.len n - 1)) eqn:E2; [| by left].
  apply bool_decide_eq_true in E1, E2. right. exists i. simpl. done.
Qed.

Lemma take_all s : Str.take (Str.len s) s = s.
Proof. induction s as [|a s IH]; simpl; [done | by rewrite IH]. Qed.

Lemma stem_take n : stem n = Str.take (Str.len n - Str.len (name_suffix n)) n.
Proof.
  unfold stem. destruct (decide (name_suffix n = "")) as [E|]; [| done].
  rewrite E. simpl. by rewrite Nat.sub_0_r, take_all.
Qed.

Lemma stem_nonempty n : n ≠ "" → stem n ≠ "".
Proof.
  intros Hn. unfold stem. destruct (decide (name_suffix n = "")); [done |].
  destruct (name_suffix_cases n) as [? | (i & Hi & Hi' & ->)]; [done |].
  apply take_nonempty; [| done]. rewrite len_drop. lia.
Qed.

Lemma stem_slash_free n : slash_free n → slash_free (stem n).
Proof.
  unfold stem, slash_free. intros H. destruct (decide _); [done |].
  by apply mem_take.
Qed.

Lemma len_name_suffix n : Str.len (name_suffix n) ≤ Str.len n.
Proof.
  destruct (name_suffix_cases n) as [-> | (i & Hi & Hi' & ->)]; simpl; [lia |].
  rewrite len_drop. lia.
Qed.

Lemma with_suffix_empty_snoc r init n :
  n ≠ "" →
  with_suffix_empty {| root := r; parts := init ++ [n] |} =
  inr {| root := r; parts := init ++ [stem n] |}.
Proof.
  intros Hn. unfold with_suffix_empty, suffix, name. simpl.
  rewrite last_snoc, removelast_last. simpl. by rewrite decide_False.
Qed.

Lemma with_suffix_empty_no_name r :
  with_suffix_empty {| root := r; parts := [] |} = inl ValueError.
Proof. done. Qed.

Lemma str_snoc r init n :
  n ≠ "" → str {| root := r; parts := init ++ [n] |} = r +:+ lead init +:+ n.
Proof.
  intros Hn. unfold str. simpl. rewrite join_snoc.
  rewrite decide_False; [done |]. intros [_ [_ ?]%append_eq_nil]%append_eq_nil. done.
Qed.

(** The module identifier of a path with a name: the separators of the
    root become dots, the components are joined by dots, and the name
    loses its suffix. *)
Lemma module_identifier_snoc r init n :
  n ≠ "" → Forall slash_free (init ++ [n]) →
  module_identifier {| root := r; parts := init ++ [n] |} =
  inr (Str.replace Str.slash Str.dot r +:+ Str.join "." (init ++ [stem n])).
Proof.
  intros Hn Hl. unfold module_identifier. rewrite with_suffix_empty_snoc by done.
  f_equal. unfold as_posix, str. simpl.
  rewrite decide_False.
  - rewrite replace_append. f_equal. apply replace_join.
    apply Forall_app in Hl as [Hi Hn']. apply Forall_app. split; [done |].
    apply Forall_singleton, stem_slash_free. by inversion Hn'.
  - intros [_ H]%append_eq_nil. revert H. by apply join_snoc_nonempty, stem_nonempty.
Qed.

(** *** Parsing *)

Lemma filter_kept l : Forall plain l → filter (λ x, kept x = true) l = l.
Proof.
  induction 1 as [|x l (H1 & H2 & _) Hl IH]; [done |].
  rewrite filter_cons_True; [by rewrite IH |].
  unfold kept. by rewrite !bool_decide_eq_true_2.
Qed.

Lemma splitroot_relative a s :
  a ≠ Str.slash → splitroot (String a s) = ("", String a s).
Proof. intros H. unfold splitroot. by rewrite decide_False. Qed.

Lemma join_cons_head a x l :
  ∃ s, Str.join "/" (String a x :: l) = String a s.
Proof. destruct l; simpl; eauto. Qed.

(** Parsing the components joined by slashes gives them back. *)
Lemma Path_of_string_join l :
  l ≠ [] → Forall plain l →
  Path_of_string (Str.join "/" l) = {| root := ""; parts := l |}.
Proof.
  intros Hne Hl. unfold Path_of_string.
  assert (Forall slash_free l) as Hsf.
  { eapply Forall_impl; [done |]. by intros x (_ & _ & ?). }
  destruct l as [|x l]; [done |].
  apply Forall_cons in Hl as Hl'. destruct Hl' as [(Hx & _ & Hxs) _].
  destruct x as [|a x]; [done |].
  destruct (join_cons_head a x l) as [s Es].
  assert (a ≠ Str.slash) as Ha.
  { intros ->. unfold slash_free in Hxs. simpl in Hxs. done. }
  rewrite Es, splitroot_relative by done. rewrite <- Es.
  rewrite split_join by done. by rewrite filter_kept.
Qed.

Lemma splitroot_root s :
  (splitroot s).1 = "" ∨ (splitroot s).1 = "/" ∨ (splitroot s).1 = "//".
Proof.
  unfold splitroot. destruct s as [|a s]; [by left |].
  destruct (decide (a = Str.slash)); [| by left].
  destruct (decide _); simpl; auto.
Qed.

Lemma Path_of_string_wf s : wf_path (Path_of_string s).
Proof.
  unfold Path_of_string, wf_path. pose proof (splitroot_root s) as Hr.
  destruct (splitroot s) as [r rel]. simpl in *. split; [done |].
  apply Forall_forall. intros x [Hk Hx]%list_elem_of_filter.
  unfold kept in Hk. apply andb_true_iff in Hk as [H1 H2].
  apply bool_decide_eq_true in H1, H2. split; [done |]. split; [done |].
  pose proof (split_parts_absent Str.slash rel) as Hs.
  rewrite Forall_forall in Hs. by apply Hs.
Qed.

(** *** Suffixes *)

Lemma rfind_absent c s : Str.mem c s = false → Str.rfind c s = None.
Proof.
  induction s as [|a s IH]; simpl; [done |].
  destruct (decide (a = c)); [done |]. intros H. by rewrite IH.
Qed.

Lemma rfind_last c s t :
  Str.mem c t = false → Str.rfind c (s +:+ String c t) = Some (Str.len s).
Proof.
  intros Ht. induction s as [|a s IH]; simpl.
  - rewrite rfind_absent by done. by rewrite decide_True.
  - by rewrite IH.
Qed.

(** Only what follows the last dot of the name is its suffix. *)
Lemma name_suffix_final s e :
  s ≠ "" → e ≠ "" → Str.mem Str.dot e = false →
  name_suffix (s +:+ "." +:+ e) = "." +:+ e.
Proof.
  intros Hs He Hd. unfold name_suffix.
  change (s +:+ "." +:+ e) with (s +:+ String Str.dot e).
  rewrite rfind_last by done.
  assert (0 < Str.len s) by (destruct s; [done | simpl; lia]).
  assert (0 < Str.len e) by (destruct e; [done | simpl; lia]).
  rewrite bool_decide_eq_true_2 by done.
  rewrite bool_decide_eq_true_2 by (rewrite len_append; simpl; lia).
  simpl. by rewrite drop_append_len.
Qed.

Lemma stem_final s e :
  s ≠ "" → e ≠ "" → Str.mem Str.dot e = false → stem (s +:+ "." +:+ e) = s.
Proof.
  intros Hs He Hd. rewrite stem_take, name_suffix_final by done.
  change ("." +:+ e) with (String Str.dot e).
  rewrite len_append.
  replace (Str.len s + Str.len (String Str.dot e) - Str.len (String Str.dot e))
    with (Str.len s) by lia.
  apply take_append_len.
Qed.

Lemma stem_no_dot n : Str.mem Str.dot n = false → stem n = n.
Proof.
  intros H. unfold stem, name_suffix. rewrite rfind_absent by done.
  by rewrite decide_True.
Qed.

(** *** The identifier as the specification words it *)

Lemma split_nonempty c s : Str.split c s ≠ [].
Proof.
  destruct s as [|a s]; simpl; [done |]. destruct (decide (a = c)); [done |].
  by destruct (Str.split c s).
Qed.

Lemma split_sep_app c y t :
  ∃ w l, Str.split c (y +:+ String c t) = (w :: l) ++ Str.split c t.
Proof.
  induction y as [|a y (w & l & IH)]; simpl.
  - exists "", []. by rewrite decide_True.
  - destruct (decide (a = c)).
    + exists "", (w :: l). by rewrite IH.
    + rewrite IH. by exists (String a w), l.
Qed.

Lemma last_split_sep c y t :
  last (Str.split c (y +:+ String c t)) = last (Str.split c t).
Proof.
  destruct (split_sep_app c y t) as (w & l & ->). rewrite last_app.
  destruct (last (Str.split c t)) eqn:E; [done |].
  apply last_None in E. by apply split_nonempty in E.
Qed.

Lemma last_split_lead init n :
  slash_free n → last (Str.split Str.slash (lead init +:+ n)) = Some n.
Proof.
  intros Hn. induction init as [|x init IH].
  - simpl. by rewrite split_absent.
  - change (lead (x :: init)) with (x +:+ "/" +:+ lead init).
    rewrite !append_assoc.
    change ("/" +:+ lead init +:+ n) with (String Str.slash (lead init +:+ n)).
    by rewrite last_split_sep.
Qed.

Lemma last_split_str r init n :
  r = "" ∨ r = "/" ∨ r = "//" → slash_free n →
  last (Str.split Str.slash (r +:+ lead init +:+ n)) = Some n.
Proof.
  intros [-> | [-> | ->]] Hn.
  - by apply last_split_lead.
  - change ("/" +:+ lead init +:+ n) with ("" +:+ String Str.slash (lead init +:+ n)).
    rewrite last_split_sep. by apply last_split_lead.
  - change ("//" +:+ lead init +:+ n)
      with ("/" +:+ String Str.slash (lead init +:+ n)).
    rewrite last_split_sep. by apply last_split_lead.
Qed.

Lemma remove_extension_str r init n :
  r = "" ∨ r = "/" ∨ r = "//" → n ≠ "" → slash_free n →
  remove_extension (str {| root := r; parts := init ++ [n] |}) =
  str {| root := r; parts := init ++ [stem n] |}.
Proof.
  intros Hr Hn Hsf. rewrite !str_snoc by auto using stem_nonempty.
  unfold remove_extension. rewrite last_split_str by done. simpl.
  rewrite <- !append_assoc, len_append.
  pose proof (len_name_suffix n).
  replace (Str.len (r +:+ lead init) + Str.len n - Str.len (name_suffix n))
    with (Str.len (r +:+ lead init) + (Str.len n - Str.len (name_suffix n)))
    by lia.
  by rewrite take_append_plus, stem_take.
Qed.

(** On a parsed path with a name, the script computes the identifier of
    the specification, read on the text of the path. *)
Lemma module_identifier_refines p :
  wf_path p → name p ≠ "" →
  module_identifier p = inr (ModuleIdentifier (str p)).
Proof.
  destruct p as [r l]. intros [Hr Hl] Hn. simpl in *.
  destruct (parts_snoc_cases l) as [-> | (init & n & ->)]; [done |].
  unfold name in Hn. simpl in Hn. rewrite last_snoc in Hn. simpl in Hn.
  apply Forall_app in Hl as [_ Hn']. inversion Hn' as [|? ? (_ & _ & Hsf) _]; subst.
  unfold ModuleIdentifier. rewrite remove_extension_str by done.
  unfold module_identifier. by rewrite with_suffix_empty_snoc.
Qed.

End PathFacts.

(** ** Ancestors and outcomes *)

Section Outcomes.

Variable cwd : location.

Implicit Types (fs : filesystem) (p : Path) (w : world).

Lemma elem_of_parents a p :
  a ∈ parents p →
  ∃ i, i < length (parts p) ∧ a = {| root := root p; parts := take i (parts p) |}.
Proof.
  unfold parents. intros (i & -> & Hi)%list_elem_of_fmap.
  exists i. split; [| done].
  apply list_elem_of_In in Hi. apply (proj2 (in_rev _ _)) in Hi.
  apply in_seq in Hi. lia.
Qed.

Lemma parent_in_parents p : parts p ≠ [] → parent p ∈ parents p.
Proof.
  intros Hne. unfold parents. apply list_elem_of_fmap.
  exists (length (parts p) - 1). split.
  - unfold parent. f_equal.
    destruct (parts_snoc_cases (parts p)) as [? | (init & c & ->)]; [done |].
    rewrite removelast_last, length_app. simpl.
    replace (length init + 1 - 1) with (length init) by lia.
    by rewrite take_app_length.
  - apply list_elem_of_In, (proj1 (in_rev _ _)), in_seq.
    destruct (parts p); [done | simpl; lia].
Qed.

(** Above a directory there are only directories. *)
Lemma is_dir_prefix fs p i :
  node_at fs cwd = Some Dir →
  is_dir cwd fs p = true →
  is_dir cwd fs {| root := root p; parts := take i (parts p) |} = true.
Proof.
  intros Hcwd Hd. apply is_dir_true in Hd. apply is_dir_true.
  apply stat_dir_walk in Hd as (k & Hw & _).
  rewrite <- (take_drop i (parts p)) in Hw. rewrite walk_app in Hw.
  destruct (walk fs (start cwd p) (take i (parts p))) as [|k1] eqn:E; [done |].
  destruct (parts_snoc_cases (take i (parts p))) as [-> | (init & c & Ei)].
  - apply os_stat_inr. exists (start cwd p). split; [done |].
    unfold start. destruct (decide _); done.
  - rewrite Ei in *. eapply walk_stat_dir. unfold start in *. simpl. done.
Qed.

Lemma is_dir_parents fs p a :
  node_at fs cwd = Some Dir →
  is_dir cwd fs (parent p) = true → a ∈ parents p →
  is_dir cwd fs a = true.
Proof.
  intros Hcwd Hd (i & Hi & ->)%elem_of_parents.
  pose proof (is_dir_prefix fs (parent p) i Hcwd Hd) as H.
  unfold parent in H. simpl in H.
  destruct (parts_snoc_cases (parts p)) as [E | (init & c & E)].
  - rewrite E in *. simpl in Hi. lia.
  - rewrite E in *. rewrite removelast_last in H.
    rewrite length_app in Hi. simpl in Hi.
    rewrite take_app_le by lia. done.
Qed.

(** A writer never takes a node away and never turns a directory into a
    file. *)
Lemma create_extends p content w :
  extends (files w) (files (create cwd p content w).2).
Proof.
  destruct (exists_ cwd (files w) p) eqn:Hex.
  - rewrite create_skip by done. apply extends_refl.
  - pose proof (create_outcome cwd p content w Hex) as H.
    destruct (create cwd p content w) as [[e|[]] w']; simpl in *.
    + by destruct H as (_ & H).
    + by destruct H as (_ & _ & H & _).
Qed.

End Outcomes.

(** ** Paths without [..] *)

Section Plain.

Implicit Types (fs : filesystem) (d k : location) (cs : list string).

Lemma step_key_plain d c : c ≠ ".." → step_key d c = d ++ [c].
Proof. intros H. unfold step_key. by rewrite decide_False. Qed.

Lemma walk_plain_inr fs d cs k :
  no_dotdot cs → walk fs d cs = inr k → k = d ++ cs.
Proof.
  intros Hcs. revert d. induction Hcs as [|c cs Hc Hcs IH]; intros d; simpl.
  - intros [= <-]. by rewrite app_nil_r.
  - destruct (enter fs d c) as [|k1] eqn:E; [done |].
    apply enter_inr in E as [-> _]. rewrite step_key_plain by done.
    intros ->%IH. by rewrite <- List.app_assoc.
Qed.

End Plain.

(** ** Trees, and what the writers keep *)

(** *** The file system stays a tree *)

Section TreeShape.

Variable cwd : location.

Implicit Types (fs : filesystem) (d k : location) (p : Path) (w : world).

Lemma tree_shaped_insert fs d c n :
  tree_shaped fs → node_at fs d = Some Dir →
  node_at fs (d ++ [c]) ≠ Some Dir →
  tree_shaped (<[d ++ [c] := n]> fs).
Proof.
  intros Ht Hd Hfree k c' n' Hn'.
  assert (d ≠ d ++ [c]) as Hne.
  { intros E. apply (f_equal length) in E. rewrite length_app in E. simpl in E. lia. }
  destruct (decide (d ++ [c] = k ++ [c'])) as [E | Hk].
  - apply app_inj_tail in E as [<- _]. rewrite node_at_insert_ne by done. done.
  - rewrite node_at_insert_ne in Hn' by done. apply Ht in Hn'.
    rewrite node_at_insert_ne; [done |]. intros <-. congruence.
Qed.

Lemma tree_shaped_parent fs d :
  tree_shaped fs → node_at fs d = Some Dir → node_at fs (removelast d) = Some Dir.
Proof.
  intros Ht Hd. destruct (parts_snoc_cases d) as [-> | (k & c & ->)]; [done |].
  rewrite removelast_last. by eapply Ht.
Qed.

Lemma enter_dir fs d c k : enter fs d c = inr k → node_at fs k = Some Dir.
Proof. by intros [_ ?]%enter_inr. Qed.

Lemma walk_dir fs d cs k :
  node_at fs d = Some Dir → walk fs d cs = inr k → node_at fs k = Some Dir.
Proof.
  revert d. induction cs as [|c cs IH]; intros d Hd; simpl.
  - by intros [= <-].
  - destruct (enter fs d c) as [|k1] eqn:E; [done |].
    apply IH. by eapply enter_dir.
Qed.

Lemma start_dir fs p : node_at fs cwd = Some Dir → node_at fs (start cwd p) = Some Dir.
Proof. intros H. unfold start. by destruct (decide _). Qed.

(** Where a located path with a last component lies: under a directory, or
    at a directory itself when the last component is [..]. *)
Lemma locate_cases fs p k :
  wf_world cwd fs → parts p ≠ [] → locate cwd fs p = inr k →
  node_at fs k = Some Dir ∨
  ∃ d c, k = d ++ [c] ∧ c ≠ ".." ∧ node_at fs d = Some Dir ∧
         last (parts p) = Some c ∧
         walk fs (start cwd p) (removelast (parts p)) = inr d.
Proof.
  intros [Hcwd Ht] Hne. destruct p as [r l]. simpl in Hne.
  destruct (parts_snoc_cases l) as [-> | (init & c & ->)]; [done |].
  rewrite locate_snoc. simpl. rewrite last_snoc, removelast_last.
  change (start cwd {| root := r; parts := init |})
    with (start cwd {| root := r; parts := init ++ [c] |}).
  destruct (walk fs _ init) as [|d] eqn:Ew; [done |]. intros [= <-].
  assert (node_at fs d = Some Dir) as Hd.
  { eapply walk_dir; [| done]. by apply start_dir. }
  unfold step_key. destruct (decide (c = "..")) as [-> | Hc].
  - left. by apply tree_shaped_parent.
  - right. by exists d, c.
Qed.

Lemma os_mkdir_wf fs p fs' :
  wf_world cwd fs → os_mkdir cwd p fs = inr fs' → wf_world cwd fs'.
Proof.
  intros Hwf (k & Hne & Hk & Hn & ->)%os_mkdir_inr.
  destruct (locate_cases _ _ _ Hwf Hne Hk) as [Hd | (d & c & -> & _ & Hd & _)];
    [congruence |].
  destruct Hwf as [Hcwd Ht]. split.
  - rewrite node_at_insert_ne; [done |]. intros <-. congruence.
  - apply tree_shaped_insert; [done | done | congruence].
Qed.

Lemma store_wf fs p k data :
  wf_world cwd fs → parts p ≠ [] → locate cwd fs p = inr k →
  node_at fs k ≠ Some Dir → wf_world cwd (<[k := File data]> fs).
Proof.
  intros Hwf Hne Hk Hn.
  destruct (locate_cases _ _ _ Hwf Hne Hk) as [Hd | (d & c & -> & _ & Hd & _)];
    [congruence |].
  destruct Hwf as [Hcwd Ht]. split.
  - rewrite node_at_insert_ne; [done |]. intros <-. congruence.
  - by apply tree_shaped_insert.
Qed.

Lemma write_text_wf p data w :
  wf_world cwd (files w) → wf_world cwd (files (write_text cwd p data w).2).
Proof.
  intros Hwf.
  destruct (write_text_cases cwd p data w)
    as [[e ->] | (k & text & r & Hne & Hk & Hn & -> & _)]; [done |].
  simpl. by eapply store_wf.
Qed.

Lemma mkdir_exist_ok_wf self w :
  wf_world cwd (files w) → wf_world cwd (files (mkdir_exist_ok cwd self w).2).
Proof.
  intros Hwf. unfold mkdir_exist_ok.
  destruct (os_mkdir cwd self (files w)) as [e|fs'] eqn:E.
  - by destruct e, (is_dir cwd (files w) self).
  - simpl. by eapply os_mkdir_wf.
Qed.

Lemma mkdir_rev_wf r rparts w :
  wf_world cwd (files w) → wf_world cwd (files (mkdir_rev cwd r rparts w).2).
Proof.
  revert w. induction rparts as [|c rparent IH]; intros w Hwf; cbn [mkdir_rev].
  - set (self := {| root := r; parts := rev [] |}).
    destruct (os_mkdir cwd self (files w)) as [e|fs'] eqn:E.
    + by destruct e, (is_dir cwd (files w) self).
    + simpl. by eapply os_mkdir_wf.
  - set (self := {| root := r; parts := rev (c :: rparent) |}).
    destruct (os_mkdir cwd self (files w)) as [e|fs'] eqn:E.
    + assert (e = ENOENT ∨ e ≠ ENOENT) as [-> | Hne] by (destruct e; auto).
      * unfold bind. specialize (IH w Hwf).
        destruct (mkdir_rev cwd r rparent w) as [[e1|[]] w1]; simpl in IH;
          [done |].
        by apply mkdir_exist_ok_wf.
      * by destruct e, (is_dir cwd (files w) self).
    + simpl. by eapply os_mkdir_wf.
Qed.

Lemma create_wf p content w :
  wf_world cwd (files w) → wf_world cwd (files (create cwd p content w).2).
Proof.
  intros Hwf. unfold create. destruct (exists_ cwd (files w) p); [done |].
  unfold bind. pose proof (mkdir_rev_wf (root (parent p)) (rev (parts (parent p))) w Hwf)
    as H1.
  unfold mkdir_parents.
  destruct (mkdir_rev cwd (root (parent p)) (rev (parts (parent p))) w)
    as [[e|[]] w1]; simpl in H1; [done |].
  pose proof (write_text_wf p content w1 H1) as H2.
  by destruct (write_text cwd p content w1) as [[e|[]] w2].
Qed.

End TreeShape.

(** *** What the writers and [main] keep *)

Section Keeps.

Variable cwd : location.

Implicit Types (fs : filesystem) (d k : location) (p : Path) (w : world).

Lemma argv_cases (argv : list string) :
  length argv < 2 ∨ ∃ prog a rest, argv = prog :: a :: rest.
Proof.
  destruct argv as [|prog [|a rest]]; simpl; [left; lia | left; lia |].
  right. eauto.
Qed.

(** After a writer has returned, its path exists. *)
Lemma create_exists_after p content w :
  (create cwd p content w).1 = inr tt →
  exists_ cwd (files (create cwd p content w).2) p = true.
Proof.
  destruct (exists_ cwd (files w) p) eqn:Hex.
  - by rewrite create_skip.
  - pose proof (create_outcome cwd p content w Hex) as H.
    destruct (create cwd p content w) as [[e|[]] w']; simpl in *; [done |].
    intros _. destruct H as (Hs & _). unfold exists_. by rewrite Hs.
Qed.

(** A writer that returns has printed its status line, and nothing else. *)
Lemma create_stdout p content w :
  (create cwd p content w).1 = inr tt →
  stdout (create cwd p content w).2 = stdout w ++ [status_line cwd (files w) p].
Proof.
  unfold status_line. destruct (exists_ cwd (files w) p) eqn:Hex.
  - by rewrite create_skip.
  - pose proof (create_outcome cwd p content w Hex) as H.
    destruct (create cwd p content w) as [[e|[]] w']; simpl in *; [done |].
    intros _. by destruct H as (_ & Ho & _).
Qed.

(** In a tree, a node below [d] hangs on directories. *)
Lemma tree_shaped_above fs d l n :
  tree_shaped fs → l ≠ [] → node_at fs (d ++ l) = Some n →
  node_at fs d = Some Dir.
Proof.
  intros Ht. revert n. induction l as [|x l IH] using rev_ind; intros n Hne Hn;
    [done |].
  rewrite List.app_assoc in Hn. apply Ht in Hn.
  destruct l as [|y l]; [by rewrite app_nil_r in Hn |]. by eapply IH.
Qed.

Lemma tree_walk fs d cs :
  tree_shaped fs → no_dotdot cs → node_at fs (d ++ cs) = Some Dir →
  walk fs d cs = inr (d ++ cs).
Proof.
  intros Ht Hcs. revert d. induction Hcs as [|c cs Hc Hcs IH]; intros d Hn.
  - simpl. by rewrite app_nil_r.
  - assert (d ++ c :: cs = (d ++ [c]) ++ cs) as E by (by rewrite <- List.app_assoc).
    rewrite E in Hn |- *.
    assert (node_at fs (d ++ [c]) = Some Dir) as Hd.
    { destruct cs as [|y cs]; [by rewrite app_nil_r in Hn |].
      apply (tree_shaped_above fs (d ++ [c]) (y :: cs) Dir Ht); [done | exact Hn]. }
    simpl. unfold enter. rewrite step_key_plain by done. rewrite Hd. by apply IH.
Qed.

(** In a tree, a path without [..] exists as soon as there is a node at its
    location. *)
Lemma exists_at_location fs p n :
  wf_world cwd fs → no_dotdot (parts p) →
  node_at fs (start cwd p ++ parts p) = Some n →
  exists_ cwd fs p = true.
Proof.
  intros [Hcwd Ht] Hdd Hn. destruct p as [r l]. simpl in *.
  unfold exists_. destruct (parts_snoc_cases l) as [-> | (init & c & ->)].
  - unfold os_stat. rewrite locate_nil. rewrite app_nil_r in Hn. by rewrite Hn.
  - apply Forall_app in Hdd as [Hdi Hdc]. inversion Hdc as [|? ? Hc _]; subst.
    change (start cwd {| root := r; parts := init ++ [c] |})
      with (start cwd {| root := r; parts := init |}) in Hn.
    rewrite List.app_assoc in Hn.
    unfold os_stat. rewrite locate_snoc, tree_walk; [| done | done |].
    + rewrite step_key_plain by done. by rewrite Hn.
    + by eapply Ht.
Qed.

(** In a tree, a writer on a path without [..] changes no node: it only
    adds. *)
Lemma create_grows p content w :
  wf_world cwd (files w) → no_dotdot (parts p) →
  grows (files w) (files (create cwd p content w).2).
Proof.
  intros Hwf Hdd. destruct (exists_ cwd (files w) p) eqn:Hex.
  { rewrite create_skip by done. apply grows_refl. }
  unfold create. rewrite Hex. unfold bind.
  pose proof (mkdir_parents_post cwd (parent p) w) as Hpost.
  pose proof (mkdir_rev_wf cwd (root (parent p)) (rev (parts (parent p))) w Hwf)
    as Hwf1.
  fold (mkdir_parents cwd (parent p)) in Hwf1.
  destruct (mkdir_parents cwd (parent p) w) as [[e|[]] w1];
    destruct Hpost as (_ & Hnew & _); simpl in Hnew, Hwf1.
  { by apply only_new_dirs_grows. }
  assert (∀ k (text : string),
            parts p ≠ [] → locate cwd (files w1) p = inr k →
            node_at (files w1) k ≠ Some Dir →
            grows (files w) (<[k := File text]> (files w1))) as Hstore;
    [| destruct (write_text_cases cwd p content w1)
         as [[e ->] | (k & text & r & Hne & Hk & Hn & -> & _)];
       [by apply only_new_dirs_grows |];
       by destruct r as [e|[]]; simpl; apply Hstore].
  intros k text Hne Hk Hn.
  eapply grows_trans; [by apply only_new_dirs_grows |].
  apply grows_insert.
  destruct (locate_cases cwd _ _ _ Hwf1 Hne Hk)
    as [? | (d & c & -> & Hc & Hd & Hl & Hw)]; [done |].
  destruct p as [r l]. simpl in *.
  destruct (parts_snoc_cases l) as [-> | (init & c' & ->)]; [done |].
  rewrite last_snoc in Hl. injection Hl as ->. rewrite removelast_last in Hw.
  apply Forall_app in Hdd as Hdd'. destruct Hdd' as [Hdi _].
  apply walk_plain_inr in Hw as ->; [| done].
  destruct (Hnew ((start cwd {| root := r; parts := init ++ [c] |} ++ init) ++ [c]))
    as [E | [_ E]]; [| congruence].
  destruct (node_at (files w) _) as [n|] eqn:En; [| congruence].
  exfalso. rewrite <- List.app_assoc in En.
  by rewrite (exists_at_location (files w) {| root := r; parts := init ++ [c] |}
                n Hwf Hdd En) in Hex.
Qed.

End Keeps.

(** ** The claims *)

Lemma lean_content_lines :
  lean_content =
  Str.unlines ["/--"; "  TODO: add description."; "-/"; "import Mathlib"; "";
               "namespace Thesis"; ""; "-- TODO: definitions and theorems."; "";
               "end Thesis"].
Proof. reflexivity. Qed.

(** C1, as stated, fails: nothing exists at [f/x.lean] when [f] is a regular
    file, yet [write_lean_file] raises [FileExistsError] from the directory
    creation, writes no file and prints nothing. *)
Lemma write_lean_file_under_regular_file :
  let p := Path_of_string "f/x.lean" in
  exists_ [] (files blocked_world) p = false ∧
  (write_lean_file [] p blocked_world).1 = inl (OSError EEXIST) ∧
  exists_ [] (files (write_lean_file [] p blocked_world).2) p = false ∧
  stdout (write_lean_file [] p blocked_world).2 = [].
Proof. vm_compute. done. Qed.

(** C1, amended: for every path [p] at which nothing exists,
    [write_lean_file p], unless an exception goes through, leaves at [p] a
    file that holds exactly the template and prints exactly the line
    [Created <path>]; when an exception goes through nothing is printed and
    no node is removed. *)
Theorem write_lean_file_creates (cwd : location) (p : Path) (w : world) :
  exists_ cwd (files w) p = false →
  match write_lean_file cwd p w with
  | (inr _, w') =>
      os_stat cwd (files w') p = inr (File lean_content) ∧
      stdout w' = stdout w ++ ["Created " +:+ str p]
  | (inl e, w') =>
      stdout w' = stdout w ∧
      ∀ k n, node_at (files w) k = Some n →
             ∃ n', node_at (files w') k = Some n' ∧ (n = Dir → n' = Dir)
  end.
Proof.
  intros Hex. rewrite write_lean_file_create.
  pose proof (create_outcome cwd p lean_content w Hex) as H.
  destruct (create cwd p lean_content w) as [[e|[]] w']; simpl in H; [done |].
  by destruct H as (? & ? & _).
Qed.

Lemma write_lean_file_creates_witness :
  (write_lean_file [] (Path_of_string "a/b/Foo.lean") empty_world).1 = inr tt ∧
  os_stat [] (files (write_lean_file [] (Path_of_string "a/b/Foo.lean") empty_world).2)
    (Path_of_string "a/b/Foo.lean") = inr (File lean_content) ∧
  stdout (write_lean_file [] (Path_of_string "a/b/Foo.lean") empty_world).2
  = ["Created a/b/Foo.lean"].
Proof.
  pose proof (write_lean_file_creates [] (Path_of_string "a/b/Foo.lean") empty_world) as H.
  assert ((write_lean_file [] (Path_of_string "a/b/Foo.lean") empty_world).1
          = inr tt) as Hr by (vm_compute; reflexivity).
  destruct (write_lean_file [] (Path_of_string "a/b/Foo.lean") empty_world)
    as [[e|[]] w']; simpl in Hr |- *; [done |].
  split; [done |]. apply H. vm_compute. reflexivity.
Defined.

(** C2: where something exists at [p], neither writer writes: the whole file
    system is left as it was, whatever the text of the file, and the line
    [<path> already exists] is printed. *)
Theorem never_overwrite (cwd : location) (p : Path) (module : string) (w : world) :
  exists_ cwd (files w) p = true →
  write_lean_file cwd p w =
    (inr tt, {| files := files w;
                stdout := stdout w ++ [str p +:+ " already exists"] |}) ∧
  write_test_file cwd p module w =
    (inr tt, {| files := files w;
                stdout := stdout w ++ [str p +:+ " already exists"] |}).
Proof.
  intros Hex. rewrite write_lean_file_create, write_test_file_create.
  split; by apply create_skip.
Qed.

Lemma never_overwrite_witness :
  os_stat [] (files (write_lean_file [] (Path_of_string "Foo.lean") used_world).2)
    (Path_of_string "Foo.lean") = inr (File "old text") ∧
  stdout (write_lean_file [] (Path_of_string "Foo.lean") used_world).2
  = ["earlier"; "Foo.lean already exists"].
Proof.
  destruct (never_overwrite [] (Path_of_string "Foo.lean") "Foo" used_world) as [H _].
  - vm_compute. reflexivity.
  - rewrite H. simpl. split; [vm_compute; reflexivity | reflexivity].
Defined.

(** C3: the module identifier is a function of the path alone (it takes no
    world and no working directory).  On every parsed path with a name it is
    the identifier of the specification read on the text of the path: the
    extension of the name removed, then every separator replaced by a dot, so
    that no separator is left.  For components joined by slashes it is the
    same components joined by dots, the last one without its suffix; in
    particular [a/b/File] gives [a.b.File]. *)
Theorem module_identifier_spec :
  (∀ s, name (Path_of_string s) ≠ "" →
        module_identifier (Path_of_string s)
        = inr (ModuleIdentifier (str (Path_of_string s)))) ∧
  (∀ p m, module_identifier p = inr m → Str.mem Str.slash m = false) ∧
  (∀ init n, Forall plain (init ++ [n]) →
        module_identifier (Path_of_string (Str.join "/" (init ++ [n])))
        = inr (Str.join "." (init ++ [stem n]))) ∧
  (∀ l, l ≠ [] → Forall plain l → Forall (λ x, Str.mem Str.dot x = false) l →
        module_identifier (Path_of_string (Str.join "/" l))
        = inr (Str.join "." l)) ∧
  module_identifier (Path_of_string "a/b/File") = inr "a.b.File".
Proof.
  assert (∀ init n, Forall plain (init ++ [n]) →
            module_identifier (Path_of_string (Str.join "/" (init ++ [n])))
            = inr (Str.join "." (init ++ [stem n]))) as Hjoin.
  { intros init n Hl. rewrite Path_of_string_join; [| by destruct init | done].
    assert (plain n) as (Hn & _ & _).
    { apply Forall_app in Hl as [_ Hn]. by inversion Hn. }
    rewrite module_identifier_snoc; [done | done |].
    eapply Forall_impl; [done |]. by intros x (_ & _ & ?). }
  split; [| split; [| split; [| split]]].
  - intros s Hn. apply module_identifier_refines; [apply Path_of_string_wf | done].
  - intros p m. unfold module_identifier.
    destruct (with_suffix_empty p); [done |]. intros [= <-].
    by apply mem_replace.
  - exact Hjoin.
  - intros l Hne Hl Hd.
    destruct (parts_snoc_cases l) as [-> | (init & n & ->)]; [done |].
    rewrite Hjoin by done. rewrite stem_no_dot; [done |].
    apply Forall_app in Hd as [_ Hd]. by inversion Hd.
  - reflexivity.
Qed.

Lemma module_identifier_spec_witness :
  module_identifier (Path_of_string "/srv//lean/./Thesis/Basic.lean")
  = inr ".srv.lean.Thesis.Basic" ∧
  Str.mem Str.slash ".srv.lean.Thesis.Basic" = false ∧
  module_identifier (Path_of_string (Str.join "/" ["a"; "b"; "File.lean"]))
  = inr "a.b.File" ∧
  module_identifier (Path_of_string (Str.join "/" ["x"; "y"; "z"])) = inr "x.y.z".
Proof.
  destruct module_identifier_spec as (Href & Hsl & Hjoin & Hplain & _).
  split; [| split; [| split]].
  - rewrite (Href "/srv//lean/./Thesis/Basic.lean"); [reflexivity | by vm_compute].
  - apply (Hsl (Path_of_string "/srv//lean/./Thesis/Basic.lean")). reflexivity.
  - apply (Hjoin ["a"; "b"] "File.lean").
    repeat constructor; by vm_compute.
  - apply (Hplain ["x"; "y"; "z"]); [done | |];
      repeat constructor; by vm_compute.
Defined.

(** C4: without a path argument, [main] prints the usage line, exits with
    status 1 and leaves the file system as it was. *)
Theorem main_usage (cwd : location) (argv : list string) (w : world) :
  length argv < 2 →
  main cwd argv w =
    (inl (SystemExit 1),
     {| files := files w; stdout := stdout w ++ [usage] |}) ∧
  exit_status (main cwd argv w).1 = 1%Z.
Proof. intros H. rewrite main_no_path by done. done. Qed.

Lemma main_usage_witness :
  main [] ["new_component.py"] empty_world =
    (inl (SystemExit 1),
     {| files := ∅;
        stdout := ["Usage: new_component.py path/to/File.lean [tests/Path.lean]"] |}) ∧
  exit_status (main [] ["new_component.py"] empty_world).1 = 1%Z.
Proof.
  apply (main_usage [] ["new_component.py"] empty_world). simpl. lia.
Defined.

Lemma test_content_lines (module : string) :
  test_content module =
  Str.unlines ["import " +:+ module; "";
               "-- TODO: add tests for " +:+ module +:+ "."].
Proof.
  unfold test_content, Str.unlines.
  rewrite !append_assoc, append_nil_r. reflexivity.
Qed.

(** C5: when [write_test_file] writes, the test file holds exactly the
    import line of the module, an empty line and the placeholder comment
    naming the module; for the primary path [a/b/Foo.lean] the import line is
    [import a.b.Foo]. *)
Theorem write_test_file_content
    (cwd : location) (p : Path) (module : string) (w : world) :
  exists_ cwd (files w) p = false →
  (write_test_file cwd p module w).1 = inr tt →
  os_stat cwd (files (write_test_file cwd p module w).2) p =
    inr (File (Str.unlines ["import " +:+ module; "";
                            "-- TODO: add tests for " +:+ module +:+ "."])) ∧
  stdout (write_test_file cwd p module w).2 = stdout w ++ ["Created " +:+ str p].
Proof.
  intros Hex Hret. rewrite <- test_content_lines.
  rewrite write_test_file_create in *.
  pose proof (create_outcome cwd p (test_content module) w Hex) as H.
  destruct (create cwd p (test_content module) w) as [[e|[]] w']; simpl in *;
    [done |].
  by destruct H as (Hs & Ho & _).
Qed.

Lemma write_test_file_content_witness :
  let argv := ["new_component.py"; "a/b/Foo.lean"; "tests/a/b/Foo.lean"] in
  module_identifier (Path_of_string "a/b/Foo.lean") = inr "a.b.Foo" ∧
  os_stat [] (files (main [] argv empty_world).2)
    (Path_of_string "tests/a/b/Foo.lean")
  = inr (File (Str.unlines ["import a.b.Foo"; "";
                            "-- TODO: add tests for a.b.Foo."])) ∧
  stdout (main [] argv empty_world).2
  = ["Created a/b/Foo.lean"; "Created tests/a/b/Foo.lean"].
Proof.
  intros argv. split; [reflexivity |].
  set (w1 := (write_lean_file [] (Path_of_string "a/b/Foo.lean") empty_world).2).
  assert (main [] argv empty_world
          = write_test_file [] (Path_of_string "tests/a/b/Foo.lean") "a.b.Foo" w1)
    as -> by (vm_compute; reflexivity).
  apply (write_test_file_content [] (Path_of_string "tests/a/b/Foo.lean")
           "a.b.Foo" w1); vm_compute; reflexivity.
Defined.

(** C6, as stated, fails.  The primary file has a name that is not UTF-8,
    so the module identifier cannot be encoded, and the test path leads to
    the primary file through the missing directory [b]: the primary file is
    written, then [write_text] on the test path opens it, which truncates it,
    and raises [UnicodeEncodeError].  The failed test write has undone the
    primary write. *)
Lemma main_test_write_truncates_primary :
  let argv := ["new_component.py"; not_utf8_name; "b/../" +:+ not_utf8_name] in
  let primary := Path_of_string not_utf8_name in
  (write_lean_file [] primary empty_world).1 = inr tt ∧
  os_stat [] (files (write_lean_file [] primary empty_world).2) primary
  = inr (File lean_content) ∧
  (main [] argv empty_world).1 = inl UnicodeEncodeError ∧
  os_stat [] (files (main [] argv empty_world).2) primary = inr (File "").
Proof. vm_compute. done. Qed.

(** C6, amended: with a path argument, [main] calls [write_lean_file] on
    the first argument; it calls [write_test_file], on the second argument and
    the module identifier of the first, exactly when there is a second
    argument.  When the primary write has returned and the run then raises,
    nothing more is printed and no node is removed; and when the file system
    is a tree and the test path has no [..] component, everything the primary
    write left, the primary file with its text included, is as it was. *)
Theorem main_orchestration
    (cwd : location) (prog a : string) (rest : list string) (w : world) :
  main cwd (prog :: a :: rest) w =
    match rest with
    | [] => (write_lean_file cwd (Path_of_string a) ;;; ret tt) w
    | b :: _ =>
        (write_lean_file cwd (Path_of_string a) ;;;
         do module <- lift (module_identifier (Path_of_string a)) ;
         write_test_file cwd (Path_of_string b) module) w
    end ∧
  (∀ w1 e w',
     write_lean_file cwd (Path_of_string a) w = (inr tt, w1) →
     main cwd (prog :: a :: rest) w = (inl e, w') →
     stdout w' = stdout w1 ∧
     (∀ k n, node_at (files w1) k = Some n →
             ∃ n', node_at (files w') k = Some n' ∧ (n = Dir → n' = Dir)) ∧
     (wf_world cwd (files w) →
      match rest with
      | [] => True
      | b :: _ => no_dotdot (parts (Path_of_string b))
      end →
      ∀ q n, os_stat cwd (files w1) q = inr n →
             os_stat cwd (files w') q = inr n)).
Proof.
  split.
  - destruct rest as [|b rest]; [apply main_primary_only |].
    apply main_primary_and_test.
  - intros w1 e w' Hw1. destruct rest as [|b rest].
    + rewrite main_primary_only. unfold bind. rewrite Hw1. done.
    + rewrite main_primary_and_test. unfold bind. rewrite Hw1. unfold lift.
      destruct (module_identifier (Path_of_string a)) as [e1|module].
      { intros [= <- <-]. split; [done |]. split; [apply extends_refl | done]. }
      rewrite write_test_file_create. set (p2 := Path_of_string b).
      destruct (exists_ cwd (files w1) p2) eqn:Hex.
      { by rewrite create_skip. }
      pose proof (create_outcome cwd p2 (test_content module) w1 Hex) as H.
      intros Hm. rewrite Hm in H. simpl in H. destruct H as (Ho & Hext).
      split; [done |]. split; [done |]. intros Hwf Hdd q n.
      apply os_stat_grows.
      assert (wf_world cwd (files w1)) as Hwf1.
      { pose proof (create_wf cwd (Path_of_string a) lean_content w Hwf) as H1.
        rewrite write_lean_file_create in Hw1. by rewrite Hw1 in H1. }
      pose proof (create_grows cwd p2 (test_content module) w1 Hwf1 Hdd) as Hg.
      by rewrite Hm in Hg.
Qed.

Lemma empty_world_wf : wf_world [] (files empty_world).
Proof.
  split; [done |]. intros k c n Hn. destruct k as [|x k]; [done |].
  simpl in Hn. by rewrite lookup_empty in Hn.
Qed.

(** The test path lies under the primary file: the primary file is written,
    then the directory creation for the test file raises. *)
Lemma main_orchestration_witness :
  let argv := ["new_component.py"; "a.lean"; "a.lean/t.lean"] in
  (main [] argv empty_world).1 = inl (OSError EEXIST) ∧
  os_stat [] (files (main [] argv empty_world).2) (Path_of_string "a.lean")
  = inr (File lean_content) ∧
  stdout (main [] argv empty_world).2 = ["Created a.lean"].
Proof.
  intros argv.
  destruct (main_orchestration [] "new_component.py" "a.lean" ["a.lean/t.lean"]
              empty_world) as [_ H].
  specialize (H (write_lean_file [] (Path_of_string "a.lean") empty_world).2
                (OSError EEXIST) (main [] argv empty_world).2).
  destruct H as (Ho & _ & Hs); [vm_compute; reflexivity .. |].
  split; [vm_compute; reflexivity |]. split.
  - apply Hs; [exact empty_world_wf | | vm_compute; reflexivity].
    repeat constructor; by vm_compute.
  - rewrite Ho. vm_compute. reflexivity.
Defined.

Lemma module_identifier_inl (p : Path) (e : exn) :
  module_identifier p = inl e → e = ValueError ∧ name p = "".
Proof.
  unfold module_identifier, with_suffix_empty.
  destruct (decide (name p = "")); [| done]. by intros [= <-].
Qed.

Lemma module_identifier_named (p : Path) :
  name p ≠ "" → ∃ m, module_identifier p = inr m.
Proof.
  intros Hn. unfold module_identifier, with_suffix_empty.
  rewrite decide_False by done. eauto.
Qed.

(** C7, as stated, fails.  With the primary path [/] and a test path, the
    primary write is skipped ([/] exists) and [with_suffix] raises
    [ValueError] on the path without a name; with the primary path
    [f/x.lean] under the regular file [f], the directory creation raises
    [FileExistsError].  Both runs end with exit status 1. *)
Lemma main_exit_status_without_name :
  let argv := ["new_component.py"; "/"; "t.lean"] in
  let argv' := ["new_component.py"; "f/x.lean"] in
  2 ≤ length argv ∧
  main [] argv empty_world =
    (inl ValueError, {| files := ∅; stdout := ["/ already exists"] |}) ∧
  exit_status (main [] argv empty_world).1 = 1%Z ∧
  2 ≤ length argv' ∧
  (main [] argv' blocked_world).1 = inl (OSError EEXIST) ∧
  exit_status (main [] argv' blocked_world).1 = 1%Z.
Proof. vm_compute. repeat split; (lia || done). Qed.

(** C7, amended: with a path argument the process exits with status 0,
    whether each targeted file was created or skipped (each of them exists
    afterwards), unless an exception goes through, and then the status is 1;
    [main] never leaves through [sys.exit] once it has a path argument. *)
Theorem main_exit_status
    (cwd : location) (prog a : string) (rest : list string) (w : world) :
  let r := (main cwd (prog :: a :: rest) w).1 in
  let w' := (main cwd (prog :: a :: rest) w).2 in
  (r = inr tt ∧ exit_status r = 0%Z ∧
   Forall (λ x, exists_ cwd (files w') (Path_of_string x) = true)
          (take 2 (a :: rest))) ∨
  (∃ e, r = inl e ∧ (∀ code, e ≠ SystemExit code) ∧ exit_status r = 1%Z).
Proof.
  intros r w'. subst r w'. set (p1 := Path_of_string a).
  assert (∀ e : exn, (∀ code, e ≠ SystemExit code) →
            exit_status (A := unit) (inl e) = 1%Z) as Hstatus.
  { intros [| | |code] He; try done. by destruct (He code). }
  pose proof (create_not_exit cwd p1 lean_content w) as Hne1.
  pose proof (create_exists_after cwd p1 lean_content w) as Hex1.
  destruct rest as [|b rest].
  - rewrite main_primary_only, write_lean_file_create. unfold bind. fold p1.
    destruct (create cwd p1 lean_content w) as [[e|[]] w1]; simpl in *.
    + right. exists e. split; [done |]. split; [| apply Hstatus]; by apply Hne1.
    + left. split; [done |]. split; [done |]. repeat constructor. by apply Hex1.
  - rewrite main_primary_and_test, write_lean_file_create. unfold bind, lift.
    fold p1.
    destruct (create cwd p1 lean_content w) as [[e|[]] w1]; simpl in *.
    { right. exists e. split; [done |]. split; [| apply Hstatus]; by apply Hne1. }
    destruct (module_identifier p1) as [e1|module] eqn:Em.
    { apply module_identifier_inl in Em as [-> _]. right. exists ValueError.
      by repeat split. }
    rewrite write_test_file_create. set (p2 := Path_of_string b).
    pose proof (create_not_exit cwd p2 (test_content module) w1) as Hne2.
    pose proof (create_exists_after cwd p2 (test_content module) w1) as Hex2.
    pose proof (create_extends cwd p2 (test_content module) w1) as Hext.
    destruct (create cwd p2 (test_content module) w1) as [[e|[]] w2]; simpl in *.
    + right. exists e. split; [done |]. split; [| apply Hstatus]; by apply Hne2.
    + left. split; [done |]. split; [done |].
      repeat constructor; [| by apply Hex2].
      eapply exists_extends; [done |]. by apply Hex1.
Qed.

Lemma main_exit_status_witness :
  exit_status (main [] ["new_component.py"; "Foo.lean"; "src/FooTest.lean"]
                 used_world).1 = 0%Z.
Proof.
  destruct (main_exit_status [] "new_component.py" "Foo.lean" ["src/FooTest.lean"]
              used_world) as [(_ & H & _) | (e & He & _)].
  - exact H.
  - vm_compute in He. discriminate.
Defined.

(** C8: where nothing exists at [p], both writers first create the parent
    directories, then write, then print.  Once the creation has returned,
    every ancestor of [p] is a directory and nothing else has changed; and
    when the parent directory is already there the creation changes nothing
    and raises nothing. *)
Theorem parents_created
    (cwd : location) (p : Path) (module : string) (w : world) :
  node_at (files w) cwd = Some Dir →
  exists_ cwd (files w) p = false →
  write_lean_file cwd p w =
    (mkdir_parents cwd (parent p) ;;;
     write_text cwd p lean_content ;;;
     print ("Created " +:+ str p)) w ∧
  write_test_file cwd p module w =
    (mkdir_parents cwd (parent p) ;;;
     write_text cwd p (test_content module) ;;;
     print ("Created " +:+ str p)) w ∧
  (∀ w1, mkdir_parents cwd (parent p) w = (inr tt, w1) →
         only_new_dirs (files w) (files w1) ∧
         ∀ a, a ∈ parents p → is_dir cwd (files w1) a = true) ∧
  (is_dir cwd (files w) (parent p) = true →
   mkdir_parents cwd (parent p) w = (inr tt, w)).
Proof.
  intros Hcwd Hex. split; [| split; [| split]].
  - unfold write_lean_file. by rewrite Hex.
  - unfold write_test_file. by rewrite Hex.
  - intros w1 Hw1. pose proof (mkdir_parents_post cwd (parent p) w) as H.
    rewrite Hw1 in H. destruct H as (_ & Hd & Hdir). simpl in Hd, Hdir.
    split; [done |]. intros a Ha. eapply is_dir_parents; [| done | done].
    by apply (only_new_dirs_grows _ _ Hd).
  - intros Hd. by apply mkdir_parents_is_dir.
Qed.

Lemma parents_created_witness :
  let p := Path_of_string "a/b/Foo.lean" in
  let w1 := (mkdir_parents [] (parent p) empty_world).2 in
  is_dir [] (files empty_world) (Path_of_string "a") = false ∧
  is_dir [] (files w1) (Path_of_string "a") = true ∧
  is_dir [] (files w1) (Path_of_string "a/b") = true ∧
  mkdir_parents [] (parent p) w1 = (inr tt, w1).
Proof.
  intros p w1. split; [reflexivity |].
  destruct (parents_created [] p "a.b.Foo" empty_world) as (_ & _ & Hmk & _);
    [reflexivity | by vm_compute |].
  destruct (Hmk w1) as [_ Hanc]; [vm_compute; reflexivity |].
  destruct (parents_created [] p "a.b.Foo" w1) as (_ & _ & _ & Hret);
    [reflexivity | by vm_compute |].
  split; [| split].
  - apply Hanc. vm_compute. apply list_elem_of_further, list_elem_of_here.
  - apply Hanc. vm_compute. apply list_elem_of_here.
  - apply Hret. apply Hanc. vm_compute. apply list_elem_of_here.
Defined.

(** C9: the check is on any node: where a directory exists at [p], both
    writers skip the write, print [<path> already exists] and return, leaving
    the file system as it was. *)
Theorem existing_directory_skipped
    (cwd : location) (p : Path) (module : string) (w : world) :
  os_stat cwd (files w) p = inr Dir →
  write_lean_file cwd p w =
    (inr tt, {| files := files w;
                stdout := stdout w ++ [str p +:+ " already exists"] |}) ∧
  write_test_file cwd p module w =
    (inr tt, {| files := files w;
                stdout := stdout w ++ [str p +:+ " already exists"] |}).
Proof.
  intros Hs. assert (exists_ cwd (files w) p = true) as Hex.
  { unfold exists_. by rewrite Hs. }
  rewrite write_lean_file_create, write_test_file_create.
  split; by apply create_skip.
Qed.

Lemma existing_directory_skipped_witness :
  (write_lean_file [] (Path_of_string "src") used_world).1 = inr tt ∧
  stdout (write_lean_file [] (Path_of_string "src") used_world).2
  = ["earlier"; "src already exists"] ∧
  os_stat [] (files (write_test_file [] (Path_of_string "src") "Foo" used_world).2)
    (Path_of_string "src") = inr Dir.
Proof.
  destruct (existing_directory_skipped [] (Path_of_string "src") "Foo" used_world)
    as [H1 H2]; [vm_compute; reflexivity |].
  rewrite H1, H2. simpl. split; [done |]. split; [done |].
  vm_compute. reflexivity.
Defined.

(** C10: only what follows the last dot of the name is removed, and the
    dots of the components stay: [a/Foo.tar.gz] gives [a.Foo.tar] and
    [a.b/File.lean] gives [a.b.File], the identifier of the different path
    [a/b/File.lean] too. *)
Theorem only_final_extension_removed :
  (∀ init s e,
     Forall slash_free (init ++ [s; e]) →
     s ≠ "" → e ≠ "" → Str.mem Str.dot e = false →
     module_identifier {| root := ""; parts := init ++ [s +:+ "." +:+ e] |}
     = inr (Str.join "." (init ++ [s]))) ∧
  module_identifier (Path_of_string "a/Foo.tar.gz") = inr "a.Foo.tar" ∧
  module_identifier (Path_of_string "a.b/File.lean") = inr "a.b.File" ∧
  Path_of_string "a.b/File.lean" ≠ Path_of_string "a/b/File.lean" ∧
  module_identifier (Path_of_string "a.b/File.lean")
  = module_identifier (Path_of_string "a/b/File.lean").
Proof.
  split; [| by vm_compute].
  intros init s e Hl Hs He Hd.
  replace (init ++ [s; e]) with ((init ++ [s]) ++ [e]) in Hl
    by (by rewrite <- List.app_assoc).
  apply Forall_app in Hl as [Hl Hes]. apply Forall_app in Hl as [Hi Hss].
  inversion Hes as [|? ? Hes' _]; subst. inversion Hss as [|? ? Hss' _]; subst.
  rewrite module_identifier_snoc.
  - by rewrite stem_final.
  - by destruct s.
  - apply Forall_app. split; [done |]. apply Forall_singleton.
    unfold slash_free in *. rewrite !mem_append, Hss', Hes'. done.
Qed.

Lemma only_final_extension_removed_witness :
  module_identifier {| root := ""; parts := ["pkg.v2"; "Foo.tar.gz"] |}
  = inr "pkg.v2.Foo.tar".
Proof.
  destruct only_final_extension_removed as [H _].
  apply (H ["pkg.v2"] "Foo.tar" "gz"); [| done | done | reflexivity].
  repeat constructor.
Defined.

(** ** Remarks *)

(** The check [path.exists()] follows the path as the kernel does.  Through
    a directory that is missing, [b/../x.lean] does not exist; creating the
    parents makes [b], after which the same path leads to [x.lean], and the
    write replaces its text. *)
Example exists_through_missing_directory :
  let w := {| files := {[ ["x.lean"] := File "old text" ]}; stdout := [] |} in
  let p := Path_of_string "b/../x.lean" in
  exists_ [] (files w) p = false ∧
  os_stat [] (files (write_lean_file [] p w).2) (Path_of_string "x.lean")
  = inr (File lean_content) ∧
  stdout (write_lean_file [] p w).2 = ["Created b/../x.lean"].
Proof. vm_compute. done. Qed.

(** Scenario 1 of the specification: [Foo.lean] alone, absent. *)
Example scenario_primary_only :
  let run := main [] ["new_component.py"; "Foo.lean"] empty_world in
  run.1 = inr tt ∧ exit_status run.1 = 0%Z ∧
  os_stat [] (files run.2) (Path_of_string "Foo.lean") = inr (File lean_content) ∧
  stdout run.2 = ["Created Foo.lean"].
Proof. vm_compute. done. Qed.

(** Scenario 4 of the specification: the primary path exists. *)
Example scenario_primary_exists :
  let run := main [] ["new_component.py"; "Foo.lean"] used_world in
  run.1 = inr tt ∧ exit_status run.1 = 0%Z ∧
  os_stat [] (files run.2) (Path_of_string "Foo.lean") = inr (File "old text") ∧
  stdout run.2 = ["earlier"; "Foo.lean already exists"].
Proof. vm_compute. done. Qed.

(** The path is printed as [pathlib] keeps it, not as it was typed. *)
Example printed_path_is_normalised :
  stdout (main [] ["new_component.py"; "a//./Foo.lean"] empty_world).2
  = ["Created a/Foo.lean"] ∧
  module_identifier (Path_of_string "a//./Foo.lean") = inr "a.Foo".
Proof. vm_compute. done. Qed.

(** ** Further properties of the script *)


Lemma home_world_wf : wf_world ["home"] (files home_world).
Proof.
  split; [reflexivity |]. intros k c n Hn.
  destruct k as [|x k]; [done |].
  assert (files home_world !! ((x :: k) ++ [c]) = Some n) as Hl by done.
  unfold home_world in Hl. simpl in Hl.
  apply lookup_insert_Some in Hl as [[E _] | [_ Hl]].
  - destruct k; simplify_eq.
  - apply lookup_singleton_Some in Hl as [E _].
    destruct k as [|y k]; [| destruct k; simplify_eq]. by simplify_eq.
Qed.

(** X1: [main] keeps the file system a tree in which the working directory
    is a directory, whatever the arguments and whether it returns or
    raises. *)
Theorem main_keeps_tree (cwd : location) (argv : list string) (w : world) :
  wf_world cwd (files w) → wf_world cwd (files (main cwd argv w).2).
Proof.
  intros Hwf. destruct (argv_cases argv) as [Hlt | (prog & a & rest & ->)].
  { by rewrite main_no_path. }
  pose proof (create_wf cwd (Path_of_string a) lean_content w Hwf) as H1.
  destruct rest as [|b rest].
  - rewrite main_primary_only, write_lean_file_create. unfold bind.
    by destruct (create cwd (Path_of_string a) lean_content w) as [[e|[]] w1].
  - rewrite main_primary_and_test, write_lean_file_create. unfold bind, lift.
    destruct (create cwd (Path_of_string a) lean_content w) as [[e|[]] w1];
      [done |].
    destruct (module_identifier (Path_of_string a)) as [e1|module]; [done |].
    rewrite write_test_file_create. by apply create_wf.
Qed.

Lemma main_keeps_tree_witness :
  wf_world ["home"]
    (files (main ["home"] ["new_component.py"; "b/../x.lean"; "t/x/T.lean"]
              home_world).2).
Proof. apply main_keeps_tree. exact home_world_wf. Defined.

(** X2: [main] never removes a node and never replaces a directory: every
    node that was there is still there, and a directory is still a
    directory, whether [main] returns or raises. *)
Theorem main_never_removes (cwd : location) (argv : list string) (w : world) :
  ∀ k n, node_at (files w) k = Some n →
         ∃ n', node_at (files (main cwd argv w).2) k = Some n' ∧
               (n = Dir → n' = Dir).
Proof.
  change (extends (files w) (files (main cwd argv w).2)).
  destruct (argv_cases argv) as [Hlt | (prog & a & rest & ->)].
  { rewrite main_no_path by done. apply extends_refl. }
  pose proof (create_extends cwd (Path_of_string a) lean_content w) as H1.
  destruct rest as [|b rest].
  - rewrite main_primary_only, write_lean_file_create. unfold bind.
    by destruct (create cwd (Path_of_string a) lean_content w) as [[e|[]] w1].
  - rewrite main_primary_and_test, write_lean_file_create. unfold bind, lift.
    destruct (create cwd (Path_of_string a) lean_content w) as [[e|[]] w1];
      [done |].
    destruct (module_identifier (Path_of_string a)) as [e1|module]; [done |].
    rewrite write_test_file_create. eapply extends_trans; [done |].
    apply create_extends.
Qed.

(** X3: when [main] returns, it has printed exactly one line for each path
    argument, in the order of the arguments: [<path> already exists] when the
    path existed at the moment of its write, [Created <path>] otherwise. *)
Theorem main_prints_status_lines
    (cwd : location) (prog a : string) (rest : list string) (w : world) :
  (main cwd (prog :: a :: rest) w).1 = inr tt →
  stdout (main cwd (prog :: a :: rest) w).2 =
    stdout w ++
    status_line cwd (files w) (Path_of_string a) ::
    match rest with
    | [] => []
    | b :: _ =>
        [status_line cwd
           (files (write_lean_file cwd (Path_of_string a) w).2)
           (Path_of_string b)]
    end.
Proof.
  rewrite write_lean_file_create.
  pose proof (create_stdout cwd (Path_of_string a) lean_content w) as H1.
  destruct rest as [|b rest].
  - rewrite main_primary_only, write_lean_file_create. unfold bind.
    destruct (create cwd (Path_of_string a) lean_content w) as [[e|[]] w1];
      simpl in *; [done |]. intros _. by apply H1.
  - rewrite main_primary_and_test, write_lean_file_create. unfold bind, lift.
    destruct (create cwd (Path_of_string a) lean_content w) as [[e|[]] w1];
      simpl in *; [done |].
    destruct (module_identifier (Path_of_string a)) as [e1|module]; [done |].
    rewrite write_test_file_create. intros Hr.
    rewrite (create_stdout cwd (Path_of_string b) (test_content module) w1 Hr).
    rewrite H1 by done. by rewrite <- List.app_assoc.
Qed.

Lemma main_prints_status_lines_witness :
  stdout (main [] ["new_component.py"; "Foo.lean"; "tests/Foo.lean"] used_world).2
  = ["earlier"; "Foo.lean already exists"; "Created tests/Foo.lean"].
Proof.
  rewrite main_prints_status_lines; [| vm_compute; reflexivity].
  vm_compute. reflexivity.
Defined.

(** X4: running [main] again after it has returned changes nothing in the
    file system and prints [<path> already exists] for each path argument. *)
Theorem main_idempotent (cwd : location) (argv : list string) (w w1 : world) :
  main cwd argv w = (inr tt, w1) →
  main cwd argv w1 =
    (inr tt,
     {| files := files w1;
        stdout := stdout w1 ++
                  map (λ a, str (Path_of_string a) +:+ " already exists")
                      (take 2 (tail argv)) |}).
Proof.
  destruct (argv_cases argv) as [Hlt | (prog & a & rest & ->)].
  { by rewrite main_no_path. }
  set (p1 := Path_of_string a).
  pose proof (create_exists_after cwd p1 lean_content w) as Hex1.
  destruct rest as [|b rest].
  - rewrite !main_primary_only, !write_lean_file_create. unfold bind. fold p1.
    destruct (create cwd p1 lean_content w) as [[e|[]] wa]; simpl in *; [done |].
    intros [= <-]. by rewrite create_skip by auto.
  - rewrite !main_primary_and_test, !write_lean_file_create. unfold bind, lift.
    fold p1.
    destruct (create cwd p1 lean_content w) as [[e|[]] wa]; simpl in *; [done |].
    destruct (module_identifier p1) as [e1|module]; [done |].
    rewrite !write_test_file_create. set (p2 := Path_of_string b).
    pose proof (create_exists_after cwd p2 (test_content module) wa) as Hex2.
    pose proof (create_extends cwd p2 (test_content module) wa) as Hext.
    destruct (create cwd p2 (test_content module) wa) as [[e|[]] wb];
      simpl in *; [done |].
    intros [= <-].
    rewrite (create_skip cwd p1) by (eapply exists_extends; eauto).
    rewrite create_skip by (simpl; auto). simpl.
    by rewrite <- List.app_assoc.
Qed.

Lemma main_idempotent_witness :
  let argv := ["new_component.py"; "a/Foo.lean"; "tests/a/Foo.lean"] in
  let w1 := (main [] argv empty_world).2 in
  main [] argv w1 =
    (inr tt,
     {| files := files w1;
        stdout := ["Created a/Foo.lean"; "Created tests/a/Foo.lean";
                   "a/Foo.lean already exists";
                   "tests/a/Foo.lean already exists"] |}).
Proof.
  intros argv w1.
  apply (main_idempotent [] argv empty_world w1). vm_compute. reflexivity.
Defined.

(** X5: in a tree, when no path argument has a [..] component, [main]
    changes no node that was there: no file is overwritten and its text is
    kept, whether [main] returns or raises. *)
Theorem main_only_adds (cwd : location) (argv : list string) (w : world) :
  wf_world cwd (files w) →
  Forall (λ a, no_dotdot (parts (Path_of_string a))) (take 2 (tail argv)) →
  ∀ k n, node_at (files w) k = Some n →
         node_at (files (main cwd argv w).2) k = Some n.
Proof.
  intros Hwf Hdd. change (grows (files w) (files (main cwd argv w).2)).
  destruct (argv_cases argv) as [Hlt | (prog & a & rest & ->)].
  { rewrite main_no_path by done. apply grows_refl. }
  simpl in Hdd. apply Forall_cons in Hdd as [Hd1 Hdd].
  pose proof (create_grows cwd (Path_of_string a) lean_content w Hwf Hd1) as H1.
  pose proof (create_wf cwd (Path_of_string a) lean_content w Hwf) as Hwf1.
  destruct rest as [|b rest].
  - rewrite main_primary_only, write_lean_file_create. unfold bind.
    by destruct (create cwd (Path_of_string a) lean_content w) as [[e|[]] w1].
  - rewrite main_primary_and_test, write_lean_file_create. unfold bind, lift.
    destruct (create cwd (Path_of_string a) lean_content w) as [[e|[]] w1];
      [done |].
    destruct (module_identifier (Path_of_string a)) as [e1|module]; [done |].
    rewrite write_test_file_create. eapply grows_trans; [done |].
    apply create_grows; [done |]. simpl in Hdd. by apply Forall_cons in Hdd as [? _].
Qed.

Lemma main_only_adds_witness :
  node_at (files (main ["home"] ["new_component.py"; "x.lean"; "t/x.lean"]
                    home_world).2) ["home"; "x.lean"]
  = Some (File "old text").
Proof.
  apply main_only_adds; [exact home_world_wf | | reflexivity].
  repeat constructor; by vm_compute.
Defined.

Lemma main_never_removes_witness :
  ∃ n', node_at (files (main ["home"] ["new_component.py"; "b/../x.lean"]
                          home_world).2) ["home"; "x.lean"] = Some n' ∧
        (File "old text" = Dir → n' = Dir).
Proof.
  apply (main_never_removes ["home"] ["new_component.py"; "b/../x.lean"]
           home_world ["home"; "x.lean"] (File "old text")).
  reflexivity.
Defined.

(** *** Edge cases of the arguments *)



(** X9: a primary argument without a final component (the empty string,
    [.], [/], [./] ...) names the working directory or the root, which
    exists: alone it is reported as existing and the run returns; with a test
    path the run then raises [ValueError] from [with_suffix], the test file is
    not written and the exit status is 1. *)
Theorem main_primary_without_name
    (cwd : location) (prog a b : string) (rest : list string) (w : world) :
  node_at (files w) cwd = Some Dir →
  parts (Path_of_string a) = [] →
  let line := str (Path_of_string a) +:+ " already exists" in
  main cwd [prog; a] w =
    (inr tt, {| files := files w; stdout := stdout w ++ [line] |}) ∧
  main cwd (prog :: a :: b :: rest) w =
    (inl ValueError, {| files := files w; stdout := stdout w ++ [line] |}) ∧
  exit_status (main cwd (prog :: a :: b :: rest) w).1 = 1%Z.
Proof.
  intros Hcwd Hp line. set (p := Path_of_string a) in *.
  assert (exists_ cwd (files w) p = true) as Hex.
  { unfold exists_, os_stat, locate. rewrite Hp. simpl.
    by rewrite (start_dir cwd _ p Hcwd). }
  assert (module_identifier p = inl ValueError) as Hm.
  { unfold module_identifier, with_suffix_empty, name. by rewrite Hp. }
  split; [| split].
  - rewrite main_primary_only, write_lean_file_create. unfold bind. fold p.
    by rewrite create_skip.
  - rewrite main_primary_and_test, write_lean_file_create. unfold bind, lift.
    fold p. by rewrite create_skip, Hm.
  - rewrite main_primary_and_test, write_lean_file_create. unfold bind, lift.
    fold p. by rewrite create_skip, Hm.
Qed.

Lemma main_primary_without_name_witness :
  main ["home"] ["new_component.py"; "./"; "t/T.lean"] home_world =
    (inl ValueError,
     {| files := files home_world; stdout := [". already exists"] |}).
Proof.
  destruct (main_primary_without_name
              ["home"] "new_component.py" "./" "t/T.lean" [] home_world)
    as (_ & H & _); [reflexivity | reflexivity |].
  exact H.
Defined.

(** X10: when both arguments name the same path and the primary write has
    returned, the test write finds the path existing: the test template is
    never written over the primary file, and [<path> already exists] is
    printed. *)
Theorem main_same_path_twice
    (cwd : location) (prog a b : string) (rest : list string) (w : world) :
  Path_of_string a = Path_of_string b →
  name (Path_of_string a) ≠ "" →
  (write_lean_file cwd (Path_of_string a) w).1 = inr tt →
  let w1 := (write_lean_file cwd (Path_of_string a) w).2 in
  main cwd (prog :: a :: b :: rest) w =
    (inr tt,
     {| files := files w1;
        stdout := stdout w1 ++ [str (Path_of_string a) +:+ " already exists"] |}).
Proof.
  intros Hab Hn Hr w1. subst w1.
  rewrite main_primary_and_test. rewrite <- Hab.
  rewrite write_lean_file_create in *. unfold bind, lift.
  pose proof (create_exists_after cwd (Path_of_string a) lean_content w Hr) as Hex.
  destruct (create cwd (Path_of_string a) lean_content w) as [[e|[]] wa];
    simpl in *; [done |].
  destruct (module_identifier_named _ Hn) as [module ->].
  rewrite write_test_file_create. by rewrite create_skip.
Qed.

Lemma main_same_path_twice_witness :
  let run := main [] ["new_component.py"; "a/Foo.lean"; "a//./Foo.lean"]
               empty_world in
  run.1 = inr tt ∧
  os_stat [] (files run.2) (Path_of_string "a/Foo.lean")
  = inr (File lean_content) ∧
  stdout run.2 = ["Created a/Foo.lean"; "a/Foo.lean already exists"].
Proof.
  intros run. subst run.
  rewrite (main_same_path_twice [] "new_component.py" "a/Foo.lean" "a//./Foo.lean"
             [] empty_world); [| reflexivity | by vm_compute | vm_compute; reflexivity].
  vm_compute. done.
Defined.

(** *** Parsing and printing paths *)

Section Parsing.

Implicit Types (s t x n : string) (c a : ascii) (l init : list string).

#[local] Arguments String.append !_ _ / : simpl nomatch.

Lemma lstrip_head c a s : a ≠ c → Str.lstrip c (String a s) = String a s.
Proof. intros H. simpl. by rewrite decide_False. Qed.

Lemma parse_components l :
  l ≠ [] → Forall slash_free l →
  filter (λ x, kept x = true) (Str.split Str.slash (Str.join "/" l))
  = filter (λ x, kept x = true) l.
Proof. intros Hne Hl. by rewrite split_join. Qed.

(** The components joined by slashes parse to the components that are
    neither empty nor [.]. *)
Lemma Path_of_string_filter x l :
  x ≠ "" → Forall slash_free (x :: l) →
  Path_of_string (Str.join "/" (x :: l)) =
  {| root := ""; parts := filter (λ y, kept y = true) (x :: l) |}.
Proof.
  intros Hx Hl. unfold Path_of_string.
  destruct x as [|a x]; [done |].
  destruct (join_cons_head a x l) as [s Es].
  assert (a ≠ Str.slash) as Ha.
  { intros ->. apply Forall_cons in Hl as [Hxs _].
    unfold slash_free in Hxs. simpl in Hxs. done. }
  rewrite Es, splitroot_relative by done. rewrite <- Es.
  by rewrite parse_components.
Qed.

Lemma Path_of_string_absolute r x l :
  r = "/" ∨ r = "//" → Forall plain (x :: l) →
  Path_of_string (r +:+ Str.join "/" (x :: l)) = {| root := r; parts := x :: l |}.
Proof.
  intros Hr Hl.
  assert (Forall slash_free (x :: l)) as Hsf.
  { eapply Forall_impl; [done |]. by intros y (_ & _ & ?). }
  apply Forall_cons in Hl as Hl'. destruct Hl' as [(Hx & _ & Hxs) _].
  destruct x as [|a x]; [done |].
  destruct (join_cons_head a x l) as [s Es].
  assert (a ≠ Str.slash) as Ha.
  { intros ->. unfold slash_free in Hxs. simpl in Hxs. done. }
  assert (filter (λ y, kept y = true) (Str.split Str.slash (String a s))
          = String a x :: l) as Hparts.
  { rewrite <- Es, parse_components by done. by apply filter_kept. }
  unfold Path_of_string. rewrite Es.
  destruct Hr as [-> | ->].
  - change ("/" +:+ String a s) with (String Str.slash (String a s)).
    unfold splitroot. rewrite decide_True by done.
    assert (Str.lstrip Str.slash (String Str.slash (String a s)) = String a s)
      as ->.
    { simpl. by rewrite decide_False. }
    rewrite decide_False by (unfold Str.len; simpl; lia).
    by rewrite Hparts.
  - change ("//" +:+ String a s)
      with (String Str.slash (String Str.slash (String a s))).
    unfold splitroot. rewrite decide_True by done.
    assert (Str.lstrip Str.slash
              (String Str.slash (String Str.slash (String a s))) = String a s)
      as ->.
    { simpl. by rewrite decide_False. }
    rewrite decide_True by (unfold Str.len; simpl; lia).
    by rewrite Hparts.
Qed.

(** A path as [Path(...)] builds them is what its text parses to. *)
Lemma Path_of_string_str p : wf_path p → Path_of_string (str p) = p.
Proof.
  destruct p as [r l]. intros [Hr Hl]. simpl in Hr, Hl.
  destruct l as [|x l].
  { by destruct Hr as [-> | [-> | ->]]. }
  assert (str {| root := r; parts := x :: l |} = r +:+ Str.join "/" (x :: l))
    as ->.
  { unfold str. cbn [root parts]. rewrite decide_False; [done |].
    intros [_ E]%append_eq_nil.
    apply Forall_cons in Hl as [(Hx & _) _]. destruct x as [|a x]; [done |].
    destruct (join_cons_head a x l) as [s Es]. congruence. }
  destruct Hr as [-> | Hr].
  - by apply Path_of_string_join.
  - by apply Path_of_string_absolute.
Qed.

Lemma rfind_Some c n i :
  Str.rfind c n = Some i →
  ∃ s e, n = s +:+ String c e ∧ Str.len s = i ∧ Str.mem c e = false.
Proof.
  revert i. induction n as [|a n IH]; intros i; simpl; [done |].
  destruct (Str.rfind c n) as [j|] eqn:E.
  - intros [= <-]. destruct (IH j eq_refl) as (s & e & -> & <- & He).
    by exists (String a s), e.
  - destruct (decide (a = c)) as [-> |]; [| done]. intros [= <-].
    exists "", n. split; [done |]. split; [done |].
    clear IH. induction n as [|b n IHn]; simpl in *; [done |].
    destruct (Str.rfind c n); [done |].
    destruct (decide (b = c)); [done |]. by apply IHn.
Qed.

Lemma stem_suffix n : stem n +:+ name_suffix n = n.
Proof.
  rewrite stem_take.
  destruct (name_suffix_cases n) as [-> | (i & Hi & Hi' & ->)].
  - simpl. by rewrite Nat.sub_0_r, take_all, append_nil_r.
  - rewrite len_drop.
    replace (Str.len n - (Str.len n - i)) with i by lia.
    apply take_drop_append.
Qed.

End Parsing.

(** X7: printing a parsed path and parsing the text again gives the same
    path: the path a status line shows is the path that was written. *)
Theorem Path_of_string_str_roundtrip (s : string) :
  Path_of_string (str (Path_of_string s)) = Path_of_string s.
Proof. apply Path_of_string_str, Path_of_string_wf. Qed.

(** X8: [Path(...)] drops empty components and [.] components and keeps
    [..]: a repeated slash, a [/./] or a final slash does not change the path
    an argument names. *)
Theorem Path_of_string_normalises (x : string) (l : list string) :
  x ≠ "" → Forall slash_free (x :: l) →
  Path_of_string (Str.join "/" (x :: l)) =
  {| root := "";
     parts := filter (λ y, y ≠ "" ∧ y ≠ ".") (x :: l) |}.
Proof.
  intros Hx Hl. rewrite Path_of_string_filter by done. f_equal.
  apply list_filter_iff. intros y. unfold kept.
  rewrite andb_true_iff, !bool_decide_eq_true. done.
Qed.

Lemma Path_of_string_normalises_witness :
  Path_of_string "a//./b/../c/" = Path_of_string "a/b/../c" ∧
  parts (Path_of_string "a//./b/../c/") = ["a"; "b"; ".."; "c"].
Proof.
  assert (Path_of_string "a//./b/../c/"
          = {| root := ""; parts := ["a"; "b"; ".."; "c"] |}) as E.
  { apply (Path_of_string_normalises "a" [""; "."; "b"; ".."; "c"; ""]);
      [done | repeat constructor]. }
  rewrite E. split; reflexivity.
Defined.

(** X11: what [with_suffix] takes for the extension of a file name.  A
    suffix that is not empty is the last dot of the name with what follows
    it: the dot is not the first character of the name and at least one
    character, none of them a dot, follows it.  So a name whose only dot is
    its first character (a hidden file) and a name that ends with a dot have
    no suffix. *)
Theorem name_suffix_shape :
  (∀ n, name_suffix n ≠ "" →
        ∃ s e, n = s +:+ "." +:+ e ∧ s ≠ "" ∧ e ≠ "" ∧
               Str.mem Str.dot e = false ∧ name_suffix n = "." +:+ e) ∧
  (∀ e, Str.mem Str.dot e = false → name_suffix ("." +:+ e) = "") ∧
  (∀ s, name_suffix (s +:+ ".") = "").
Proof.
  split; [| split].
  - intros n Hn. unfold name_suffix in *.
    destruct (Str.rfind Str.dot n) as [i|] eqn:Ei; [| done].
    destruct (bool_decide (0 < i)) eqn:E1; [| done].
    destruct (bool_decide (i < Str.len n - 1)) eqn:E2; [| done].
    apply bool_decide_eq_true in E1, E2. simpl.
    apply rfind_Some in Ei as (s & e & -> & <- & He).
    exists s, e. rewrite len_append in E2.
    split; [done |]. split; [by destruct s; [simpl in E1; lia |] |].
    split; [destruct e; [simpl in E2; unfold Str.len in E2; simpl in E2; lia | done] |].
    split; [done |]. by rewrite drop_append_len.
  - intros e He. unfold name_suffix.
    change ("." +:+ e) with ("" +:+ String Str.dot e).
    by rewrite rfind_last.
  - intros s. unfold name_suffix.
    change (s +:+ ".") with (s +:+ String Str.dot "").
    rewrite rfind_last by done. rewrite len_append.
    rewrite (bool_decide_eq_false_2 (Str.len s < _));
      [by rewrite andb_false_r |].
    unfold Str.len. simpl. lia.
Qed.

Lemma name_suffix_shape_witness :
  (∃ s e, "Foo.tar.gz" = s +:+ "." +:+ e ∧ s ≠ "" ∧ e ≠ "" ∧
          Str.mem Str.dot e = false ∧ name_suffix "Foo.tar.gz" = "." +:+ e) ∧
  name_suffix ".gitignore" = "".
Proof.
  destruct name_suffix_shape as (H1 & H2 & _). split.
  - apply (H1 "Foo.tar.gz"). by vm_compute.
  - apply (H2 "gitignore"). reflexivity.
Defined.

(** X12: [with_suffix("")] only cuts the text of the path at its end: the
    text of the result followed by the suffix is the text of the path; the
    parent is the same and the name is not empty. *)
Theorem with_suffix_empty_text (p q : Path) :
  with_suffix_empty p = inr q →
  as_posix q +:+ suffix p = as_posix p ∧ parent q = parent p ∧ name q ≠ "".
Proof.
  destruct p as [r l]. destruct (parts_snoc_cases l) as [-> | (init & n & ->)];
    [done |].
  destruct (decide (n = "")) as [-> | Hn].
  { unfold with_suffix_empty, name. simpl. by rewrite last_snoc. }
  rewrite with_suffix_empty_snoc by done. intros [= <-].
  pose proof (stem_nonempty n Hn) as Hs.
  unfold as_posix, suffix, name, parent. simpl.
  rewrite !str_snoc by done. rewrite !last_snoc, !removelast_last. simpl.
  split; [| done]. by rewrite !append_assoc, stem_suffix.
Qed.

Lemma with_suffix_empty_text_witness :
  as_posix {| root := "/"; parts := ["srv"; "Foo.tar"] |} +:+ ".gz"
  = "/srv/Foo.tar.gz".
Proof.
  destruct (with_suffix_empty_text
              {| root := "/"; parts := ["srv"; "Foo.tar.gz"] |}
              {| root := "/"; parts := ["srv"; "Foo.tar"] |}) as [H _];
    [reflexivity | exact H].
Defined.

(** X13: the module identifier of an absolute primary path starts with a
    dot, the replacement of the root's slash: [/a/b/File.lean] gives
    [.a.b.File]. *)
Theorem module_identifier_absolute (init : list string) (n : string) :
  Forall plain (init ++ [n]) →
  module_identifier (Path_of_string ("/" +:+ Str.join "/" (init ++ [n])))
  = inr ("." +:+ Str.join "." (init ++ [stem n])).
Proof.
  intros Hl.
  assert (plain n) as (Hn & _ & _).
  { apply Forall_app in Hl as [_ Hn]. by inversion Hn. }
  assert (Forall slash_free (init ++ [n])) as Hsf.
  { eapply Forall_impl; [done |]. by intros y (_ & _ & ?). }
  destruct (init ++ [n]) as [|x l] eqn:E; [by destruct init |].
  rewrite Path_of_string_absolute by auto. rewrite <- E in *.
  by rewrite module_identifier_snoc.
Qed.

Lemma module_identifier_absolute_witness :
  module_identifier (Path_of_string "/a/b/File.lean") = inr ".a.b.File".
Proof.
  apply (module_identifier_absolute ["a"; "b"] "File.lean").
  repeat constructor; by vm_compute.
Defined.

(** *** Only the locations on the path are touched *)

Section Frame.

Variable cwd : location.

Implicit Types (fs : filesystem) (d k : location) (p : Path) (w : world).

Lemma locate_plain fs p k :
  no_dotdot (parts p) → locate cwd fs p = inr k → k = start cwd p ++ parts p.
Proof.
  destruct p as [r l]. simpl. intros Hdd.
  destruct (parts_snoc_cases l) as [-> | (init & c & ->)].
  - rewrite locate_nil. intros [= <-]. by rewrite app_nil_r.
  - rewrite locate_snoc.
    change (start cwd {| root := r; parts := init |})
      with (start cwd {| root := r; parts := init ++ [c] |}).
    apply Forall_app in Hdd as [Hdi Hdc]. inversion Hdc as [|? ? Hc _]; subst.
    destruct (walk fs _ init) as [|d] eqn:Ew; [done |]. intros [= <-].
    apply walk_plain_inr in Ew as ->; [| done].
    rewrite step_key_plain by done. by rewrite <- List.app_assoc.
Qed.

Lemma os_mkdir_frame fs p fs' k :
  no_dotdot (parts p) → os_mkdir cwd p fs = inr fs' →
  k ≠ start cwd p ++ parts p → node_at fs' k = node_at fs k.
Proof.
  intros Hdd (k0 & _ & Hk0 & _ & ->)%os_mkdir_inr Hk.
  apply locate_plain in Hk0 as ->; [| done]. by apply node_at_insert_ne.
Qed.

Lemma write_text_frame p data w k :
  no_dotdot (parts p) → k ≠ start cwd p ++ parts p →
  node_at (files (write_text cwd p data w).2) k = node_at (files w) k.
Proof.
  intros Hdd Hk.
  destruct (write_text_cases cwd p data w)
    as [[e ->] | (k0 & text & r & _ & Hk0 & _ & -> & _)]; [done |].
  simpl. apply locate_plain in Hk0 as ->; [| done]. by apply node_at_insert_ne.
Qed.

Lemma mkdir_exist_ok_frame self w k :
  no_dotdot (parts self) → k ≠ start cwd self ++ parts self →
  node_at (files (mkdir_exist_ok cwd self w).2) k = node_at (files w) k.
Proof.
  intros Hdd Hk. unfold mkdir_exist_ok.
  destruct (os_mkdir cwd self (files w)) as [e|fs'] eqn:E.
  - by destruct e, (is_dir cwd (files w) self).
  - simpl. by eapply os_mkdir_frame.
Qed.

Lemma mkdir_rev_frame r rparts w k :
  no_dotdot (rev rparts) →
  (∀ l, l `prefix_of` rev rparts →
        k ≠ start cwd {| root := r; parts := rev rparts |} ++ l) →
  node_at (files (mkdir_rev cwd r rparts w).2) k = node_at (files w) k.
Proof.
  revert w. induction rparts as [|c rparent IH]; intros w Hdd Hk;
    cbn [mkdir_rev].
  - set (self := {| root := r; parts := rev [] |}).
    destruct (os_mkdir cwd self (files w)) as [e|fs'] eqn:E.
    + by destruct e, (is_dir cwd (files w) self).
    + by apply os_mkdir_inr in E as (? & ? & ?).
  - set (self := {| root := r; parts := rev (c :: rparent) |}).
    assert (k ≠ start cwd self ++ parts self) as Hself by (by apply Hk).
    destruct (os_mkdir cwd self (files w)) as [e|fs'] eqn:E.
    + assert (e = ENOENT ∨ e ≠ ENOENT) as [-> | Hne] by (destruct e; auto).
      * unfold bind. cbn [rev] in Hdd, Hk.
        apply Forall_app in Hdd as Hdd'. destruct Hdd' as [Hdi _].
        assert (node_at (files (mkdir_rev cwd r rparent w).2) k
                = node_at (files w) k) as H1.
        { apply IH; [done |]. intros l Hl. apply (Hk l). by apply prefix_app_r. }
        destruct (mkdir_rev cwd r rparent w) as [[e1|[]] w1]; simpl in H1;
          [done |].
        rewrite <- H1. apply mkdir_exist_ok_frame; [| exact Hself].
        apply Forall_app. split; [done |]. by apply Forall_app in Hdd as [_ ?].
      * by destruct e, (is_dir cwd (files w) self).
    + simpl. exact (os_mkdir_frame (files w) self fs' k Hdd E Hself).
Qed.

(** A writer on a path without [..] leaves every location that is not on
    the path as it was. *)
Lemma create_frame p content w k :
  no_dotdot (parts p) →
  (∀ l, l `prefix_of` parts p → k ≠ start cwd p ++ l) →
  node_at (files (create cwd p content w).2) k = node_at (files w) k.
Proof.
  intros Hdd Hk. unfold create. destruct (exists_ cwd (files w) p); [done |].
  unfold bind, mkdir_parents.
  assert (node_at (files (mkdir_rev cwd (root (parent p))
                            (rev (parts (parent p))) w).2) k
          = node_at (files w) k) as H1.
  { destruct p as [r l]. unfold parent. simpl in *.
    destruct (parts_snoc_cases l) as [-> | (init & c & ->)].
    - apply (mkdir_rev_frame r [] w k); [done |]. simpl. intros l Hl. by apply Hk.
    - rewrite removelast_last. apply Forall_app in Hdd as [Hdi _].
      apply mkdir_rev_frame; rewrite rev_involutive; [done |].
      intros l Hl. apply (Hk l). by apply prefix_app_r. }
  destruct (mkdir_rev cwd _ _ w) as [[e|[]] w1]; simpl in H1; [done |].
  assert (node_at (files (write_text cwd p content w1).2) k
          = node_at (files w1) k) as H2.
  { apply write_text_frame; [done |]. by apply Hk. }
  destruct (write_text cwd p content w1) as [[e|[]] w2]; simpl in *; congruence.
Qed.

End Frame.

(** X14: when no path argument has a [..] component, [main] touches only
    the locations on the paths of its arguments: every other location is as
    it was, whether [main] returns or raises. *)
Theorem main_touches_only_the_paths
    (cwd : location) (argv : list string) (w : world) (k : location) :
  Forall (λ a, no_dotdot (parts (Path_of_string a))) (take 2 (tail argv)) →
  Forall (λ a, ∀ l, l `prefix_of` parts (Path_of_string a) →
                    k ≠ start cwd (Path_of_string a) ++ l)
         (take 2 (tail argv)) →
  node_at (files (main cwd argv w).2) k = node_at (files w) k.
Proof.
  intros Hdd Hk.
  destruct (argv_cases argv) as [Hlt | (prog & a & rest & ->)].
  { by rewrite main_no_path. }
  simpl in Hdd, Hk.
  apply Forall_cons in Hdd as [Hd1 Hdd]. apply Forall_cons in Hk as [Hk1 Hk].
  pose proof (create_frame cwd (Path_of_string a) lean_content w k Hd1 Hk1) as H1.
  destruct rest as [|b rest].
  - rewrite main_primary_only, write_lean_file_create. unfold bind.
    by destruct (create cwd (Path_of_string a) lean_content w) as [[e|[]] w1].
  - rewrite main_primary_and_test, write_lean_file_create. unfold bind, lift.
    destruct (create cwd (Path_of_string a) lean_content w) as [[e|[]] w1];
      simpl in H1; [done |].
    destruct (module_identifier (Path_of_string a)) as [e1|module]; [done |].
    rewrite write_test_file_create. rewrite <- H1. simpl in Hdd, Hk.
    apply Forall_cons in Hdd as [Hd2 _]. apply Forall_cons in Hk as [Hk2 _].
    by apply create_frame.
Qed.

Lemma main_touches_only_the_paths_witness :
  node_at (files (main ["home"] ["new_component.py"; "a/Foo.lean"; "t/Foo.lean"]
                    home_world).2) ["home"; "a"; "Bar.lean"] = None.
Proof.
  rewrite main_touches_only_the_paths; [reflexivity | |].
  - repeat constructor; by vm_compute.
  - repeat constructor; intros l [l' E]; vm_compute in E |- *;
      intros E'; destruct l as [|? [|? [|? [|? ?]]]]; simplify_eq.
Defined.

(** X15: the two arguments are tied by the identifier: when [main] returns
    and the test path did not exist after the primary write, the test file
    holds the import line and the placeholder of the module identifier of the
    first argument. *)
Theorem main_test_file_imports_primary
    (cwd : location) (prog a b : string) (rest : list string) (w : world) :
  let w1 := (write_lean_file cwd (Path_of_string a) w).2 in
  (main cwd (prog :: a :: b :: rest) w).1 = inr tt →
  exists_ cwd (files w1) (Path_of_string b) = false →
  ∃ m, module_identifier (Path_of_string a) = inr m ∧
       os_stat cwd (files (main cwd (prog :: a :: b :: rest) w).2)
         (Path_of_string b)
       = inr (File (Str.unlines ["import " +:+ m; "";
                                 "-- TODO: add tests for " +:+ m +:+ "."])).
Proof.
  intros w1. subst w1. rewrite main_primary_and_test.
  rewrite write_lean_file_create. unfold bind, lift.
  destruct (create cwd (Path_of_string a) lean_content w) as [[e|[]] w1];
    cbn [fst snd]; [done |].
  destruct (module_identifier (Path_of_string a)) as [e1|m]; [done |].
  rewrite write_test_file_create. intros Hr Hex. exists m. split; [done |].
  rewrite <- test_content_lines.
  pose proof (create_outcome cwd (Path_of_string b) (test_content m) w1 Hex) as H.
  destruct (create cwd (Path_of_string b) (test_content m) w1) as [[e|[]] w2];
    simpl in *; [done |].
  by destruct H as (Hs & _).
Qed.

Lemma main_test_file_imports_primary_witness :
  ∃ m, module_identifier (Path_of_string "x/y.v2/Foo.lean") = inr m ∧
       os_stat ["home"]
         (files (main ["home"]
                   ["new_component.py"; "x/y.v2/Foo.lean"; "t/FooTest.lean"]
                   home_world).2)
         (Path_of_string "t/FooTest.lean")
       = inr (File (Str.unlines ["import " +:+ m; "";
                                 "-- TODO: add tests for " +:+ m +:+ "."])).
Proof.
  apply (main_test_file_imports_primary ["home"] "new_component.py"
           "x/y.v2/Foo.lean" "t/FooTest.lean" [] home_world);
    vm_compute; reflexivity.
Defined.
